(** * The knowledge-base bulk import / export service

    A shallow embedding of [BulkImportService] (server/contentMaster/
    bulkImportService.ts): [parseCSV], [parseJSON], [csvToEntries],
    [validateEntries], [importFromCSV], [importFromJSON], [importEntries],
    [exportAsCSV] and [exportAsJSON], with the properties of the
    specification that concern them.

    Conventions.
    - A JavaScript string is a sequence of UTF-16 code units.  A [string]
      here stands for the JavaScript string whose code units are the codes
      of its characters, so the development covers the strings whose code
      units are below 256.  [String.length] is then the [length] property.
    - The built-ins [JSON.parse] and [JSON.stringify] and the database driver
      are not code of the repository: they are parameters of the development
      ([JSON_parse], [JSON_stringify], [Driver]); so are the text an engine
      prints for a number and the message it gives to a [TypeError]
      ([Number_toString], [TypeError_message]).
    - An [async] function is modelled by the value its promise settles to: a
      fulfilled promise is [Normal], a rejected one is [Throw].
    - The types of TypeScript are erased at run time.  The functions that
      receive their entries from [csvToEntries] are modelled on the record
      [ImportEntry]; the path of [importFromJSON], which hands the array of
      [JSON.parse] to [importEntries] as it is, is modelled on values of any
      shape (module [Untyped]). *)

From Corelib Require Import Floats.SpecFloat.
From Stdlib Require Import Strings.Ascii.
From stdpp Require Import base option list strings pretty gmap.

Local Open Scope string_scope.
Set Warnings "-register-all".

(** ** JavaScript strings: the built-ins the service calls *)

(** The double quote character, U+0022. *)
Definition dquote : ascii := Ascii.ascii_of_nat 34.
(** The line feed character, U+000A, written ['\n'] in the source. *)
Definition LF : ascii := Ascii.ascii_of_nat 10.
(** The comma, U+002C. *)
Definition comma : ascii := Ascii.ascii_of_nat 44.

(** [WhiteSpace] and [LineTerminator] code units below 256, the ones
    [String.prototype.trim] removes: TAB, LF, VT, FF, CR, SP and NBSP. *)
Definition is_whitespace (c : ascii) : bool :=
  let n := Ascii.nat_of_ascii c in
  (n =? 9)%nat || (n =? 10)%nat || (n =? 11)%nat || (n =? 12)%nat
  || (n =? 13)%nat || (n =? 32)%nat || (n =? 160)%nat.

(** [s === ''] *)
Definition is_empty (s : string) : bool :=
  match s with EmptyString => true | String _ _ => false end.

(** [s.trimStart()] *)
Fixpoint trimStart (s : string) : string :=
  match s with
  | EmptyString => EmptyString
  | String c s' => if is_whitespace c then trimStart s' else s
  end.

(** [s.trimEnd()] *)
Fixpoint trimEnd (s : string) : string :=
  match s with
  | EmptyString => EmptyString
  | String c s' =>
      let r := trimEnd s' in
      if is_whitespace c && is_empty r then EmptyString else String c r
  end.

(** [s.trim()] *)
Definition trim (s : string) : string := trimEnd (trimStart s).

(** [s.split(sep)] for a separator of one character: the pieces between
    the occurrences of [sep], in order; a string without [sep] (the empty
    string too) gives one piece. *)
Fixpoint split (sep : ascii) (s : string) : list string :=
  match s with
  | EmptyString => [EmptyString]
  | String c s' =>
      if Ascii.eqb c sep then EmptyString :: split sep s'
      else match split sep s' with
           | [] => [String c EmptyString]
           | piece :: pieces => String c piece :: pieces
           end
  end.

(** [xs.join(sep)] *)
Fixpoint join (sep : string) (xs : list string) : string :=
  match xs with
  | [] => EmptyString
  | [x] => x
  | x :: rest => x +:+ sep +:+ join sep rest
  end.

(** [s.replace(/DQ/g, 'DQDQ')], DQ standing for the double quote: every
    double quote of [s] is doubled. *)
Fixpoint escapeQuotes (s : string) : string :=
  match s with
  | EmptyString => EmptyString
  | String c s' =>
      if Ascii.eqb c dquote then String dquote (String dquote (escapeQuotes s'))
      else String c (escapeQuotes s')
  end.

(** The template literal that puts [${s}] between two double quotes. *)
Definition quoted (s : string) : string :=
  String dquote (s +:+ String dquote EmptyString).

(** [s.includes(c)] for one character. *)
Fixpoint contains (c : ascii) (s : string) : bool :=
  match s with
  | EmptyString => false
  | String c' s' => Ascii.eqb c' c || contains c s'
  end.

(** ** JavaScript values, exceptions and completions *)

(** The values [JSON.parse] returns and [JSON.stringify] prints, with
    [undefined]; an object is the list of its own properties in insertion
    order, a number is a binary64 floating-point number. *)
Inductive JSValue : Type :=
| JUndefined
| JNull
| JBool (b : bool)
| JNumber (x : spec_float)
| JString (s : string)
| JArray (items : list JSValue)
| JObject (properties : list (string * JSValue)).

(** [ToBoolean]: what [v ? a : b] and [!v] test. *)
Definition truthy (v : JSValue) : bool :=
  match v with
  | JUndefined | JNull => false
  | JBool b => b
  | JNumber (S754_zero _) | JNumber S754_nan => false
  | JNumber _ => true
  | JString s => negb (is_empty s)
  | JArray _ | JObject _ => true
  end.

(** [o[key]] on the own properties [o]. *)
Fixpoint property (key : string) (o : list (string * JSValue)) : option JSValue :=
  match o with
  | [] => None
  | (k, v) :: rest => if String.eqb k key then Some v else property key rest
  end.

(** A thrown value: an [Error] object (or one of a subclass, such as the
    [SyntaxError] of [JSON.parse]) with its message, or anything else. *)
Inductive Thrown : Type :=
| ThrownError (message : string)
| ThrownOther.

(** [error instanceof Error ? error.message : 'Unknown error'] *)
Definition error_message (t : Thrown) : string :=
  match t with
  | ThrownError m => m
  | ThrownOther => "Unknown error"
  end.

(** The completion of a call: it returns a value or throws. *)
Inductive Completion (A : Type) : Type :=
| Normal (a : A)
| Throw (t : Thrown).
Arguments Normal {A} a.
Arguments Throw {A} t.

#[global] Instance Completion_ret : MRet Completion := fun A a => Normal a.
#[global] Instance Completion_bind : MBind Completion := fun A B k c =>
  match c with
  | Normal a => k a
  | Throw t => Throw t
  end.

(** [xs.map(f)] for a callback that may throw: the first exception ends
    the map. *)
Fixpoint mapC {A B : Type} (f : A -> Completion B) (xs : list A) : Completion (list B) :=
  match xs with
  | [] => Normal []
  | x :: rest =>
      y ← f x;
      ys ← mapC f rest;
      Normal (y :: ys)
  end.


(** ** The data model *)

(** [interface ImportEntry]: an entry whose fields have the declared
    types.  A field that is [undefined] is [None]; [metadata] is whatever
    value [JSON.parse] gave. *)
Record ImportEntry : Type := {
  type : option string;
  title : option string;
  content : option string;
  url : option string;
  metadata : option JSValue;
}.

(** The element type of [ImportResult.errors], [{ rowIndex, error }]
    ([rowError] is its [error] field). *)
Record RowError : Type := {
  rowIndex : nat;
  rowError : string;
}.

(** [interface ImportResult] *)
Record ImportResult : Type := {
  success : bool;
  totalRows : nat;
  importedRows : nat;
  skippedRows : nat;
  errors : list RowError;
}.

(** [interface ValidationError] *)
Record ValidationError : Type := {
  index : nat;
  error : string;
}.

(** Modelled from the spec: the schema of the table [knowledgeEntries]
    (drizzle/schema) is not among the sources.  Section 6 of the
    specification gives the persisted representation: each stored entry
    carries its owner, type, title and content, an optional url and an
    optional metadata, stored as JSON text.  These are the columns the
    service writes and reads; an optional column without value holds
    [null], which is [None] here. *)
Record StoredEntry : Type := {
  stored_userId : nat;
  stored_type : string;
  stored_title : string;
  stored_content : string;
  stored_url : option string;
  stored_metadata : option string;
}.

(** The object [importEntries] passes to [db.insert(knowledgeEntries).values]:
    [type], [title], [content] and [url] are the values of the entry as they
    are; [metadata] is a JSON text, or [null], which is [None]. *)
Record InsertValues : Type := {
  values_userId : nat;
  values_type : JSValue;
  values_title : JSValue;
  values_content : JSValue;
  values_url : JSValue;
  values_metadata : option string;
}.

(** A field of an [ImportEntry] as a JavaScript value: its string, or
    [undefined] when the field is missing. *)
Definition optional (x : option string) : JSValue :=
  match x with
  | Some s => JString s
  | None => JUndefined
  end.

(** [x || y] on strings that may be [undefined] or [null]: [x] when it is
    a non-empty string, else [y]. *)
Definition or_string (x : option string) (y : string) : string :=
  match x with
  | Some s => if is_empty s then y else s
  | None => y
  end.

(** [!x] on a string that may be [undefined]. *)
Definition falsy (x : option string) : bool :=
  match x with
  | Some s => is_empty s
  | None => true
  end.

(** The line feed as a string, ['\n']. *)
Definition NL : string := String LF EmptyString.

(** [validTypes] of [validateEntries]. *)
Definition validTypes : list string :=
  ["website"; "book"; "music"; "artist"; "feature"; "blog"].

(** [xs.includes(s)] *)
Definition includes (xs : list string) (s : string) : bool :=
  existsb (String.eqb s) xs.

(** [errors.push(e)] *)
Definition push {A : Type} (xs : list A) (x : A) : list A := xs ++ [x].

(** ** The service *)

Section BulkImportService.

(** [JSON.parse(text)]: the value, or the [SyntaxError] it throws. *)
Variable JSON_parse : string -> Completion JSValue.

(** [JSON.stringify(value, null, space)]; [space] is 0 where the source
    passes no third argument. *)
Variable JSON_stringify : JSValue -> nat -> string.

(** The contents of the database. *)
Variable Store : Type.

(** The handle [db] when it is not [null]: [db_insert values] is
    [await db.insert(knowledgeEntries).values(values)], giving the new
    contents and the value thrown when the insert is rejected;
    [db_select] is [await db.select().from(knowledgeEntries)]. *)
Record Driver : Type := {
  db_insert : InsertValues -> Store -> Store * option Thrown;
  db_select : Store -> Completion (list StoredEntry);
}.

(** *** parseCSV *)

(** [row[h] = v] on a row, which is an object created by [{}] and given
    strings only: the finite map of its own properties.  The assignment
    creates or overwrites the property [h], for every name but [__proto__]:
    that name reaches the setter of [Object.prototype], which ignores a
    string, and the row keeps the properties it had. *)
Definition assign (h v : string) (row : gmap string string) : gmap string string :=
  if String.eqb h "__proto__" then row else <[h := v]> row.

(** The inner loop of [parseCSV]:
    [for (j = 0; j < headers.length; j++) row[headers[j]] = values[j] || ''],
    entered at [j] with the headers from [j] on.  A header met again
    overwrites its value. *)
Fixpoint row_loop (values : list string) (j : nat) (headers : list string)
    (row : gmap string string) : gmap string string :=
  match headers with
  | [] => row
  | h :: headers' =>
      row_loop values (S j) headers' (assign h (or_string (values !! j) "") row)
  end.

(** [line.trim()] as the predicate of [filter]: the line is kept when its
    trimmed text is not empty. *)
Definition not_blank (line : string) : bool := negb (is_empty (trim line)).

(** [content.split('\n').filter((line) => line.trim())] *)
Definition lines_of (content : string) : list string :=
  List.filter not_blank (split LF content).

Definition parseCSV (content : string) : Completion (list (gmap string string)) :=
  let lines := lines_of content in
  if (length lines <? 2)%nat then
    Throw (ThrownError "CSV must have at least a header row and one data row")
  else
    let headers := trim <$> split comma (default "" (lines !! 0%nat)) in
    Normal ((fun line => row_loop (trim <$> split comma line) 0 headers ∅)
              <$> drop 1 lines).

(** *** parseJSON *)

(** [parseJSON] returns the array [JSON.parse] gave, as it is: its items
    are checked by nobody at this point.  Both the [SyntaxError] and the
    error for a value that is no array pass through the [catch], which
    throws a new [Error]. *)
Definition parseJSON (content : string) : Completion (list JSValue) :=
  match
    (data ← JSON_parse content;
     match data with
     | JArray items => Normal items
     | _ => Throw (ThrownError "JSON must be an array of entries")
     end)
  with
  | Normal items => Normal items
  | Throw t => Throw (ThrownError ("Invalid JSON: " +:+ error_message t))
  end.

(** *** csvToEntries *)

(** The callback of [rows.map]; [JSON.parse] throws on a metadata text that
    is not JSON. *)
Definition csvToEntry (row : gmap string string) : Completion ImportEntry :=
  md ← match row !! "metadata" with
       | Some m =>
           if is_empty m then Normal None
           else v ← JSON_parse m; Normal (Some v)
       | None => Normal None
       end;
  Normal {| type := Some (or_string (row !! "type") "website");
            title := Some (or_string (row !! "title") "");
            content := Some (or_string (row !! "content") "");
            url := row !! "url";
            metadata := md |}.

Definition csvToEntries (rows : list (gmap string string)) : Completion (list ImportEntry) :=
  mapC csvToEntry rows.

(** *** validateEntries *)

(** The body of the loop of [validateEntries] for the entry at index [i]. *)
Definition validate_entry (i : nat) (entry : ImportEntry)
    (errors : list ValidationError) : list ValidationError :=
  let errors :=
    if falsy (type entry) then
      push errors {| index := i; error := "Missing type field" |}
    else if negb (includes validTypes (default "" (type entry))) then
      push errors {| index := i;
                     error := "Invalid type: " +:+ default "" (type entry)
                              +:+ ". Must be one of: " +:+ join ", " validTypes |}
    else errors in
  let errors :=
    if falsy (title entry) || is_empty (trim (default "" (title entry))) then
      push errors {| index := i; error := "Missing or empty title" |}
    else errors in
  let errors :=
    if falsy (content entry) || is_empty (trim (default "" (content entry))) then
      push errors {| index := i; error := "Missing or empty content" |}
    else errors in
  if negb (falsy (title entry))
     && (255 <? String.length (default "" (title entry)))%nat then
    push errors {| index := i; error := "Title too long (max 255 characters)" |}
  else errors.

(** [for (i = 0; i < entries.length; i++)], entered at [i] with the entries
    from [i] on. *)
Fixpoint validate_loop (i : nat) (entries : list ImportEntry)
    (errors : list ValidationError) : list ValidationError :=
  match entries with
  | [] => errors
  | entry :: entries' => validate_loop (S i) entries' (validate_entry i entry errors)
  end.

Definition validateEntries (entries : list ImportEntry) : list ValidationError :=
  validate_loop 0 entries [].

(** *** importEntries *)

(** [validationErrors.map((e) => ({ rowIndex: e.index, error: e.error }))] *)
Definition as_row_error (e : ValidationError) : RowError :=
  {| rowIndex := index e; rowError := error e |}.

(** The set [validIndices]: the indices below [n] that no validation error
    names. *)
Definition validIndices (validationErrors : list ValidationError) (n : nat) : gset nat :=
  list_to_set
    (List.filter
       (fun i => negb (existsb (fun e => (index e =? i)%nat) validationErrors))
       (seq 0 n)).

(** The object passed to [values]: [metadata] is the JSON text of a truthy
    [entry.metadata], and [null] otherwise. *)
Definition insert_values (userId : nat) (entry : ImportEntry) : InsertValues :=
  {| values_userId := userId;
     values_type := optional (type entry);
     values_title := optional (title entry);
     values_content := optional (content entry);
     values_url := optional (url entry);
     values_metadata :=
       match metadata entry with
       | Some v => if truthy v then Some (JSON_stringify v 0) else None
       | None => None
       end |}.

(** [result.skippedRows++] *)
Definition skip_row (result : ImportResult) : ImportResult :=
  {| success := success result; totalRows := totalRows result;
     importedRows := importedRows result;
     skippedRows := S (skippedRows result); errors := errors result |}.

(** [result.importedRows++] *)
Definition import_row (result : ImportResult) : ImportResult :=
  {| success := success result; totalRows := totalRows result;
     importedRows := S (importedRows result);
     skippedRows := skippedRows result; errors := errors result |}.

(** [result.errors.push(e)] *)
Definition push_error (result : ImportResult) (e : RowError) : ImportResult :=
  {| success := success result; totalRows := totalRows result;
     importedRows := importedRows result;
     skippedRows := skippedRows result; errors := push (errors result) e |}.

(** The body of the loop of [importEntries] for the entry at index [i]. *)
Definition import_entry (db : Driver) (userId : nat) (valid : gset nat) (i : nat)
    (entry : ImportEntry) (state : ImportResult * Store) : ImportResult * Store :=
  let (result, store) := state in
  if negb (bool_decide (i ∈ valid)) then (skip_row result, store)
  else
    match db_insert db (insert_values userId entry) store with
    | (store', None) => (import_row result, store')
    | (store', Some thrown) =>
        (skip_row
           (push_error result
              {| rowIndex := i;
                 rowError := "Database insert failed: " +:+ error_message thrown |}),
         store')
    end.

(** [for (i = 0; i < entries.length; i++)], entered at [i] with the entries
    from [i] on. *)
Fixpoint import_loop (db : Driver) (userId : nat) (valid : gset nat) (i : nat)
    (entries : list ImportEntry) (state : ImportResult * Store) : ImportResult * Store :=
  match entries with
  | [] => state
  | entry :: entries' =>
      import_loop db userId valid (S i) entries' (import_entry db userId valid i entry state)
  end.

(** [db] is [None] when the handle is [null].  The function returns the
    result and the contents of the database afterwards. *)
Definition importEntries (db : option Driver) (userId : nat)
    (entries : list ImportEntry) (store : Store) : ImportResult * Store :=
  let validationErrors := validateEntries entries in
  let result :=
    {| success := true; totalRows := length entries; importedRows := 0;
       skippedRows := 0; errors := as_row_error <$> validationErrors |} in
  let valid := validIndices validationErrors (length entries) in
  match db with
  | None =>
      ({| success := false; totalRows := length entries; importedRows := 0;
          skippedRows := length entries;
          errors := [{| rowIndex := 0; rowError := "Database not initialized" |}] |},
       store)
  | Some db =>
      let (result, store') := import_loop db userId valid 0 entries (result, store) in
      ({| success := (skippedRows result =? 0)%nat; totalRows := totalRows result;
          importedRows := importedRows result; skippedRows := skippedRows result;
          errors := errors result |},
       store')
  end.

(** *** importFromCSV

    [importFromJSON] follows the module [Untyped] below. *)

(** The result the [catch] clauses of [importFromCSV] and [importFromJSON]
    build, [prefix] being [CSV parsing failed: ] or [JSON parsing failed: ]. *)
Definition parse_failure (prefix : string) (thrown : Thrown) : ImportResult :=
  {| success := false; totalRows := 0; importedRows := 0; skippedRows := 0;
     errors := [{| rowIndex := 0; rowError := prefix +:+ error_message thrown |}] |}.

Definition importFromCSV (db : option Driver) (userId : nat) (csvContent : string)
    (store : Store) : ImportResult * Store :=
  match (rows ← parseCSV csvContent; csvToEntries rows) with
  | Normal entries => importEntries db userId entries store
  | Throw thrown => (parse_failure "CSV parsing failed: " thrown, store)
  end.

(** *** exportAsCSV and exportAsJSON *)

(** The line the loop of [exportAsCSV] appends for one entry. *)
Definition csv_line (entry : StoredEntry) : string :=
  quoted (stored_type entry) +:+ ","
  +:+ quoted (escapeQuotes (stored_title entry)) +:+ ","
  +:+ quoted (escapeQuotes (stored_content entry)) +:+ ","
  +:+ quoted (or_string (stored_url entry) "") +:+ ","
  +:+ quoted (or_string (stored_metadata entry) "") +:+ NL.

Definition exportAsCSV (db : option Driver) (userId : nat) (store : Store)
    : Completion string :=
  match db with
  | None => Normal ""
  | Some db =>
      entries ← db_select db store;
      if (length entries =? 0)%nat then Normal ""
      else
        Normal (foldl (fun csv entry => csv +:+ csv_line entry)
                  ("type,title,content,url,metadata" +:+ NL) entries)
  end.

(** The callback of [entries.map] in [exportAsJSON]. *)
Definition export_record (entry : StoredEntry) : Completion JSValue :=
  md ← (if falsy (stored_metadata entry) then Normal JUndefined
        else JSON_parse (or_string (stored_metadata entry) "{}"));
  Normal (JObject [("type", JString (stored_type entry));
                   ("title", JString (stored_title entry));
                   ("content", JString (stored_content entry));
                   ("url", match stored_url entry with
                           | Some u => JString u
                           | None => JNull
                           end);
                   ("metadata", md)]).

Definition exportAsJSON (db : option Driver) (userId : nat) (store : Store)
    : Completion string :=
  match db with
  | None => Normal "[]"
  | Some db =>
      entries ← db_select db store;
      if (length entries =? 0)%nat then Normal "[]"
      else
        exportData ← mapC export_record entries;
        Normal (JSON_stringify (JArray exportData) 2)
  end.

End BulkImportService.

Arguments db_insert {Store} d values store.
Arguments db_select {Store} d store.
Arguments importEntries JSON_stringify {Store} db userId entries store.
Arguments importFromCSV JSON_parse JSON_stringify {Store} db userId csvContent store.
Arguments exportAsCSV {Store} db userId store.
Arguments exportAsJSON JSON_parse JSON_stringify {Store} db userId store.
Arguments import_loop JSON_stringify {Store} db userId valid i entries state.
Arguments import_entry JSON_stringify {Store} db userId valid i entry state.

(** ** The service on values of any shape

    [parseJSON] declares the type [ImportEntry[]] for the array it returns,
    and checks nothing: [importFromJSON] passes to [importEntries] whatever
    [JSON.parse] read.  [Untyped.validateEntries] and
    [Untyped.importEntries] are [validateEntries] and [importEntries] as they
    run on such an array: an item may be [null], a number, a string, an
    array, or an object whose properties hold values of any kind. *)

Module Untyped.

Section Service.

(** [JSON.stringify(value, null, space)], as above. *)
Variable JSON_stringify : JSValue -> nat -> string.

(** [Number::toString]: the text of a number in a template literal. *)
Variable Number_toString : spec_float -> string.

(** The message an engine gives to the [TypeError] it throws when it
    evaluates the named expression. *)
Variable TypeError_message : string -> string.

(** The contents of the database. *)
Variable Store : Type.

(** The [TypeError] thrown at [expression]; it is an [Error] object. *)
Definition TypeError (expression : string) : Thrown :=
  ThrownError (TypeError_message expression).

(** [entry.key] for the five names the service reads, [type], [title],
    [content], [url] and [metadata].  Reading a property of [null] or of
    [undefined] throws a [TypeError].  An object gives its own property, and
    [undefined] when it has none of that name ([Object.prototype] has none
    of the five either); so does every boolean, number, string and array,
    whose prototypes have none of them. *)
Definition get (entry : JSValue) (key : string) : Completion JSValue :=
  match entry with
  | JUndefined | JNull => Throw (TypeError ("entry." +:+ key))
  | JObject properties => Normal (default JUndefined (property key properties))
  | JBool _ | JNumber _ | JString _ | JArray _ => Normal JUndefined
  end.

(** [ToString(v)], which the template literal applies to [${v}].  An array
    prints as [join(',')] of its items, [null] and [undefined] among them as
    the empty text.  An object prints as [[object Object]] by the method
    [toString] it inherits; an own property of that name, which is no
    function in a value read by [JSON.parse], hides the method, and the
    conversion throws a [TypeError]. *)
Fixpoint ToString (v : JSValue) : Completion string :=
  match v with
  | JUndefined => Normal "undefined"
  | JNull => Normal "null"
  | JBool b => Normal (if b then "true" else "false")
  | JNumber x => Normal (Number_toString x)
  | JString s => Normal s
  | JArray items =>
      texts ← (fix each (vs : list JSValue) : Completion (list string) :=
                 match vs with
                 | [] => Normal []
                 | w :: ws =>
                     text ← match w with
                            | JUndefined | JNull => Normal ""
                            | _ => ToString w
                            end;
                     texts ← each ws;
                     Normal (text :: texts)
                 end) items;
      Normal (join "," texts)
  | JObject properties =>
      match property "toString" properties with
      | Some _ => Throw (TypeError "${entry.type}")
      | None => Normal "[object Object]"
      end
  end.

(** [validTypes.includes(v)]: the comparison is strict, so that only a
    string is found. *)
Definition includes_value (xs : list string) (v : JSValue) : bool :=
  match v with
  | JString s => includes xs s
  | _ => false
  end.

(** A title or a content as the test [!v || v.trim() === ''] reads it:
    [None] for a falsy value, on which [v.trim] is not evaluated; the string
    itself for a string that is not empty; and the [TypeError] of the call
    [v.trim()] for any other value, which has no method [trim]. *)
Definition text (expression : string) (v : JSValue) : Completion (option string) :=
  if negb (truthy v) then Normal None
  else match v with
       | JString s => Normal (Some s)
       | _ => Throw (TypeError expression)
       end.

(** [!v || v.trim() === ''] on that reading. *)
Definition blank (t : option string) : bool :=
  match t with
  | Some s => is_empty (trim s)
  | None => true
  end.

(** [v && v.length > 255] on that reading. *)
Definition too_long (t : option string) : bool :=
  match t with
  | Some s => (255 <? String.length s)%nat
  | None => false
  end.

(** *** validateEntries *)

(** The body of the loop of [validateEntries] for the entry at index [i].
    The exception of a step ends the function: the reading of [entry.type]
    on an item that is [null], the conversion of a type to text, the call of
    [trim] on a title or a content that is no string. *)
Definition validate_entry (i : nat) (entry : JSValue)
    (errors : list ValidationError) : Completion (list ValidationError) :=
  ty ← get entry "type";
  errors ←
    (if negb (truthy ty) then
       Normal (push errors {| index := i; error := "Missing type field" |})
     else if negb (includes_value validTypes ty) then
       shown ← ToString ty;
       Normal (push errors {| index := i;
                              error := "Invalid type: " +:+ shown
                                       +:+ ". Must be one of: "
                                       +:+ join ", " validTypes |})
     else Normal errors);
  ti ← get entry "title";
  ti ← text "entry.title.trim" ti;
  let errors :=
    if blank ti then push errors {| index := i; error := "Missing or empty title" |}
    else errors in
  co ← get entry "content";
  co ← text "entry.content.trim" co;
  let errors :=
    if blank co then push errors {| index := i; error := "Missing or empty content" |}
    else errors in
  Normal (if too_long ti then
            push errors {| index := i; error := "Title too long (max 255 characters)" |}
          else errors).

(** [for (i = 0; i < entries.length; i++)], entered at [i] with the entries
    from [i] on. *)
Fixpoint validate_loop (i : nat) (entries : list JSValue)
    (errors : list ValidationError) : Completion (list ValidationError) :=
  match entries with
  | [] => Normal errors
  | entry :: entries' =>
      errors ← validate_entry i entry errors;
      validate_loop (S i) entries' errors
  end.

Definition validateEntries (entries : list JSValue) : Completion (list ValidationError) :=
  validate_loop 0 entries [].

(** *** importEntries *)

(** The object passed to [values], built inside the [try] block. *)
Definition insert_values (userId : nat) (entry : JSValue) : Completion InsertValues :=
  ty ← get entry "type";
  ti ← get entry "title";
  co ← get entry "content";
  ur ← get entry "url";
  md ← get entry "metadata";
  Normal {| values_userId := userId;
            values_type := ty;
            values_title := ti;
            values_content := co;
            values_url := ur;
            values_metadata :=
              if truthy md then Some (JSON_stringify md 0) else None |}.

(** The [catch] clause of the loop. *)
Definition insert_failed (result : ImportResult) (i : nat) (thrown : Thrown)
    : ImportResult :=
  skip_row
    (push_error result
       {| rowIndex := i;
          rowError := "Database insert failed: " +:+ error_message thrown |}).

(** The body of the loop of [importEntries] for the entry at index [i]. *)
Definition import_entry (db : Driver Store) (userId : nat) (valid : gset nat) (i : nat)
    (entry : JSValue) (state : ImportResult * Store) : ImportResult * Store :=
  let (result, store) := state in
  if negb (bool_decide (i ∈ valid)) then (skip_row result, store)
  else
    match insert_values userId entry with
    | Throw thrown => (insert_failed result i thrown, store)
    | Normal values =>
        match db_insert db values store with
        | (store', None) => (import_row result, store')
        | (store', Some thrown) => (insert_failed result i thrown, store')
        end
    end.

(** [for (i = 0; i < entries.length; i++)], entered at [i] with the entries
    from [i] on. *)
Fixpoint import_loop (db : Driver Store) (userId : nat) (valid : gset nat) (i : nat)
    (entries : list JSValue) (state : ImportResult * Store) : ImportResult * Store :=
  match entries with
  | [] => state
  | entry :: entries' =>
      import_loop db userId valid (S i) entries' (import_entry db userId valid i entry state)
  end.

(** The promise of [importEntries] is rejected when [validateEntries]
    throws, before the handle [db] is looked at; it is fulfilled with a
    result otherwise.  The contents of the database come second. *)
Definition importEntries (db : option (Driver Store)) (userId : nat)
    (entries : list JSValue) (store : Store) : Completion ImportResult * Store :=
  match validateEntries entries with
  | Throw thrown => (Throw thrown, store)
  | Normal validationErrors =>
      let result :=
        {| success := true; totalRows := length entries; importedRows := 0;
           skippedRows := 0; errors := as_row_error <$> validationErrors |} in
      let valid := validIndices validationErrors (length entries) in
      match db with
      | None =>
          (Normal
             {| success := false; totalRows := length entries; importedRows := 0;
                skippedRows := length entries;
                errors := [{| rowIndex := 0; rowError := "Database not initialized" |}] |},
           store)
      | Some db =>
          let (result, store') := import_loop db userId valid 0 entries (result, store) in
          (Normal
             {| success := (skippedRows result =? 0)%nat; totalRows := totalRows result;
                importedRows := importedRows result;
                skippedRows := skippedRows result; errors := errors result |},
           store')
      end
  end.

End Service.

Arguments import_entry JSON_stringify TypeError_message {Store}
  db userId valid i entry state.
Arguments import_loop JSON_stringify TypeError_message {Store}
  db userId valid i entries state.
Arguments importEntries JSON_stringify Number_toString TypeError_message {Store}
  db userId entries store.

End Untyped.

(** ** importFromJSON *)

Section ImportFromJSON.

Variable JSON_parse : string -> Completion JSValue.
Variable JSON_stringify : JSValue -> nat -> string.
Variable Number_toString : spec_float -> string.
Variable TypeError_message : string -> string.
Variable Store : Type.

(** [return this.importEntries(userId, entries)] hands over the promise of
    [importEntries] without awaiting it inside the [try] block: the [catch]
    clause sees the exception of [parseJSON] only, and when the promise of
    [importEntries] is rejected so is the promise of [importFromJSON]. *)
Definition importFromJSON (db : option (Driver Store)) (userId : nat)
    (jsonContent : string) (store : Store) : Completion ImportResult * Store :=
  match parseJSON JSON_parse jsonContent with
  | Normal entries =>
      Untyped.importEntries JSON_stringify Number_toString TypeError_message
        db userId entries store
  | Throw thrown => (Normal (parse_failure "JSON parsing failed: " thrown), store)
  end.

End ImportFromJSON.

Arguments importFromJSON JSON_parse JSON_stringify Number_toString TypeError_message
  {Store} db userId jsonContent store.

(** ** The validation rules, as the specification lists them *)

(** The five rules, in the order of the checks. *)
Inductive Rule : Type :=
| TypeMissing
| TypeInvalid
| TitleMissing
| ContentMissing
| TitleTooLong.

Definition rules : list Rule :=
  [TypeMissing; TypeInvalid; TitleMissing; ContentMissing; TitleTooLong].

(** Whether an entry violates a rule: the type is missing (or empty); the
    type is present and not one of [validTypes]; the title, the content, is
    missing or empty once trimmed; the title has more than 255 characters. *)
Definition violates (r : Rule) (entry : ImportEntry) : bool :=
  match r with
  | TypeMissing => falsy (type entry)
  | TypeInvalid =>
      match type entry with
      | Some t => negb (is_empty t) && negb (includes validTypes t)
      | None => false
      end
  | TitleMissing =>
      match title entry with
      | Some t => is_empty (trim t)
      | None => true
      end
  | ContentMissing =>
      match content entry with
      | Some c => is_empty (trim c)
      | None => true
      end
  | TitleTooLong =>
      match title entry with
      | Some t => (255 <? String.length t)%nat
      | None => false
      end
  end.

(** The message of a rule. *)
Definition rule_error (r : Rule) (entry : ImportEntry) : string :=
  match r with
  | TypeMissing => "Missing type field"
  | TypeInvalid =>
      "Invalid type: " +:+ default "" (type entry)
      +:+ ". Must be one of: website, book, music, artist, feature, blog"
  | TitleMissing => "Missing or empty title"
  | ContentMissing => "Missing or empty content"
  | TitleTooLong => "Title too long (max 255 characters)"
  end.

(** One error record for each rule the entry at index [i] violates, in the
    order of the rules. *)
Definition violations (i : nat) (entry : ImportEntry) : list ValidationError :=
  (fun r => {| index := i; error := rule_error r entry |})
    <$> List.filter (fun r => violates r entry) rules.

(** The records of the entries from index [i] on, entry after entry. *)
Fixpoint violations_from (i : nat) (entries : list ImportEntry) : list ValidationError :=
  match entries with
  | [] => []
  | entry :: entries' => violations i entry ++ violations_from (S i) entries'
  end.

(** The records of a list of errors that name the index [i]. *)
Definition errors_at (i : nat) (errors : list ValidationError) : list ValidationError :=
  List.filter (fun e => (index e =? i)%nat) errors.

(** ** The record of the JSON export *)

(** The object [{ type, title, content, url, metadata }] that
    [exportAsJSON] builds for a stored entry, [md] being the value of its
    [metadata] property.  [url] is the stored value as it is, [null] when
    the entry has no url. *)
Definition exported (entry : StoredEntry) (md : JSValue) : JSValue :=
  JObject [("type", JString (stored_type entry));
           ("title", JString (stored_title entry));
           ("content", JString (stored_content entry));
           ("url", match stored_url entry with
                   | Some u => JString u
                   | None => JNull
                   end);
           ("metadata", md)].

(** ** The round trip through the CSV text *)

(** Export, then [parseCSV], then [csvToEntries]. *)
Definition roundTrip (JSON_parse : string -> Completion JSValue) {Store : Type}
    (db : option (Driver Store)) (userId : nat) (store : Store)
    : Completion (list ImportEntry) :=
  csv ← exportAsCSV db userId store;
  rows ← parseCSV csv;
  csvToEntries JSON_parse rows.

(** The five fields of the line [exportAsCSV] writes for an entry. *)
Definition csv_fields (entry : StoredEntry) : list string :=
  [quoted (stored_type entry);
   quoted (escapeQuotes (stored_title entry));
   quoted (escapeQuotes (stored_content entry));
   quoted (or_string (stored_url entry) "");
   quoted (or_string (stored_metadata entry) "")].

(** No comma and no line feed in [s]. *)
Definition one_field (s : string) : bool :=
  negb (contains comma s) && negb (contains LF s).

(** The entries the round trip is stated for: no field holds a comma or a
    line feed, and the title and the content hold no double quote. *)
Definition round_trip_safe (entry : StoredEntry) : bool :=
  one_field (stored_type entry)
  && one_field (stored_title entry)
  && one_field (stored_content entry)
  && one_field (or_string (stored_url entry) "")
  && one_field (or_string (stored_metadata entry) "")
  && negb (contains dquote (stored_title entry))
  && negb (contains dquote (stored_content entry)).

(** What the round trip makes of a stored entry: every field comes back
    between the double quotes the export put around it, the url and the
    metadata too (two double quotes when they were missing), and the
    metadata is what [JSON.parse] reads from its quoted text. *)
Definition quoted_entry (JSON_parse : string -> Completion JSValue)
    (entry : StoredEntry) : Completion ImportEntry :=
  md ← JSON_parse (quoted (or_string (stored_metadata entry) ""));
  Normal {| type := Some (quoted (stored_type entry));
            title := Some (quoted (stored_title entry));
            content := Some (quoted (stored_content entry));
            url := Some (quoted (or_string (stored_url entry) ""));
            metadata := Some md |}.

(** ** generateCSVTemplate *)

(** [headers.join(',') + '\n'], then [csv += example.join(',') + '\n'] for
    each example.  The last field of an example is the text of a JSON
    object: with the member [category]; with the members [author] and
    [year]; with the members [genre] and [tracks]. *)
Definition generateCSVTemplate : string :=
  let headers := ["type"; "title"; "content"; "url"; "metadata"] in
  let examples :=
    [["website"; "My Music Website";
      "A website showcasing my music and artist profile";
      "https://example.com";
      "{" +:+ quoted "category" +:+ ":" +:+ quoted "music" +:+ "}"];
     ["book"; "My Autobiography";
      "The story of my life and journey in music";
      "https://amazon.com/...";
      "{" +:+ quoted "author" +:+ ":" +:+ quoted "Me" +:+ ","
          +:+ quoted "year" +:+ ":2024}"];
     ["music"; "Gospel Album";
      "My latest gospel music album with 10 tracks";
      "https://spotify.com/...";
      "{" +:+ quoted "genre" +:+ ":" +:+ quoted "gospel" +:+ ","
          +:+ quoted "tracks" +:+ ":10}"]] in
  foldl (fun csv example => csv +:+ join "," example +:+ NL)
    (join "," headers +:+ NL) examples.

(** ** The header and the fields of a CSV text *)

(** [lines[0].split(',').map((h) => h.trim())] of [parseCSV]. *)
Definition csv_headers (content : string) : list string :=
  trim <$> split comma (default "" (lines_of content !! 0%nat)).

(** [lines[i].split(',').map((v) => v.trim())] of [parseCSV]. *)
Definition csv_values (line : string) : list string :=
  trim <$> split comma line.

(** ** Entries without violation *)

(** The entry violates none of the rules. *)
Definition valid_entry (entry : ImportEntry) : bool :=
  forallb (fun r => negb (violates r entry)) rules.

(** The number of indices from [i] on, [n] of them, that are not in
    [valid]: the rows the loop of [importEntries] skips without an insert. *)
Definition invalid_rows (valid : gset nat) (i n : nat) : nat :=
  length (List.filter (fun j => negb (bool_decide (j ∈ valid))) (seq i n)).

(** ** The inserts of a batch *)

(** The entries of a batch that violate no rule, each with its index in the
    batch, the first entry having the index [i]. *)
Fixpoint valid_rows (i : nat) (entries : list ImportEntry) : list (nat * ImportEntry) :=
  match entries with
  | [] => []
  | entry :: entries' =>
      if valid_entry entry then (i, entry) :: valid_rows (S i) entries'
      else valid_rows (S i) entries'
  end.

(** The inserts of a list of rows, one after the other from the contents
    [store] on: for each row its index and what its insert threw, [None]
    when the insert was accepted. *)
Fixpoint insert_outcomes (JSON_stringify : JSValue -> nat -> string) {Store : Type}
    (db : Driver Store) (userId : nat) (rows : list (nat * ImportEntry))
    (store : Store) : list (nat * option Thrown) :=
  match rows with
  | [] => []
  | (i, entry) :: rows' =>
      let out := db_insert db (insert_values JSON_stringify userId entry) store in
      (i, out.2) :: insert_outcomes JSON_stringify db userId rows' out.1
  end.

(** The error record of a rejected insert; an accepted insert has none. *)
Definition failure (outcome : nat * option Thrown) : option RowError :=
  match outcome.2 with
  | Some thrown =>
      Some {| rowIndex := outcome.1;
              rowError := "Database insert failed: " +:+ error_message thrown |}
  | None => None
  end.

(** The insert was accepted. *)
Definition accepted (outcome : nat * option Thrown) : bool :=
  match outcome.2 with
  | Some _ => false
  | None => true
  end.

(** ** Entries of the declared type, as values *)

(** The object an [ImportEntry] is at run time: its five properties, a
    missing field being [undefined]. *)
Definition entry_value (entry : ImportEntry) : JSValue :=
  JObject [("type", optional (type entry));
           ("title", optional (title entry));
           ("content", optional (content entry));
           ("url", optional (url entry));
           ("metadata", default JUndefined (metadata entry))].

(** ** The keys of a CSV row *)

(** The header names that become keys of a row: all but [__proto__]. *)
Definition own_keys (headers : list string) : list string :=
  List.filter (fun h => negb (String.eqb h "__proto__")) headers.

(** ** getSubscriptionStats of the payment service *)

(** The columns of a row of [contentMasterPurchases] that
    [getSubscriptionStats] reads.  The schema is not among the sources; the
    types are those the interface [Subscription] of the same file gives to
    the values read from these columns: two strings and a [Date], here its
    time value in milliseconds. *)
Record Purchase : Type := {
  purchase_planId : string;
  purchase_status : string;
  purchase_currentPeriodEnd : Z;
}.

(** The object [getSubscriptionStats] returns. *)
Record SubscriptionStats : Type := {
  totalSubscriptions : nat;
  activeSubscriptions : nat;
  monthlySubscriptions : nat;
  lifetimeSubscriptions : nat;
  totalRevenue : nat;
}.

(** [all.filter((p) => p.status === 'active' && p.currentPeriodEnd > new Date())]
    from the element at index [i] on; [now i] is the time [new Date()] gives
    when the callback runs on the element at index [i]. *)
Fixpoint filter_active (now : nat -> Z) (i : nat) (all : list Purchase) : list Purchase :=
  match all with
  | [] => []
  | p :: rest =>
      if String.eqb (purchase_status p) "active"
         && (now i <? purchase_currentPeriodEnd p)%Z
      then p :: filter_active now (S i) rest
      else filter_active now (S i) rest
  end.

(** [xs.filter((p) => p.planId === plan)] *)
Definition with_plan (plan : string) (xs : list Purchase) : list Purchase :=
  List.filter (fun p => String.eqb (purchase_planId p) plan) xs.

(** The callback of [all.reduce]: 29 for a monthly plan, 299 for any
    other. *)
Definition add_price (sum : nat) (p : Purchase) : nat :=
  if String.eqb (purchase_planId p) "monthly" then sum + 29 else sum + 299.

(** The object of the [catch] clause. *)
Definition no_stats : SubscriptionStats :=
  {| totalSubscriptions := 0; activeSubscriptions := 0;
     monthlySubscriptions := 0; lifetimeSubscriptions := 0; totalRevenue := 0 |}.

(** [db] is [None] when the handle is [null], and else the query
    [db.select().from(contentMasterPurchases)] on the contents of the
    database.  The [Error] thrown for a missing handle and a rejected query
    both end in the [catch], which logs and returns [no_stats].  The counts
    are natural numbers: the sums of the source stay far below 2^53, where
    its floating-point additions are exact. *)
Definition getSubscriptionStats {Store : Type}
    (db : option (Store -> Completion (list Purchase))) (now : nat -> Z)
    (store : Store) : SubscriptionStats :=
  match db with
  | None => no_stats
  | Some select =>
      match select store with
      | Throw _ => no_stats
      | Normal all =>
          let active := filter_active now 0 all in
          let monthly := with_plan "monthly" active in
          let lifetime := with_plan "lifetime" active in
          let revenue := foldl add_price 0 all in
          {| totalSubscriptions := length all;
             activeSubscriptions := length active;
             monthlySubscriptions := length monthly;
             lifetimeSubscriptions := length lifetime;
             totalRevenue := revenue |}
      end
  end.

(** ** Reference instances of the parameters

    They serve to run the service on concrete inputs.  The theorems below
    hold for every [JSON_parse], [JSON_stringify] and [Driver]. *)

Module Reference.

(** JSON white space: space, TAB, LF and CR. *)
Definition is_json_ws (c : ascii) : bool :=
  let n := Ascii.nat_of_ascii c in
  (n =? 32)%nat || (n =? 9)%nat || (n =? 10)%nat || (n =? 13)%nat.

Fixpoint skip_ws (s : string) : string :=
  match s with
  | String c s' => if is_json_ws c then skip_ws s' else s
  | EmptyString => EmptyString
  end.

(** The characters of a JSON string up to its closing quote, and the text
    after it; escape sequences are outside the fragment read here. *)
Fixpoint string_body (s : string) : option (string * string) :=
  match s with
  | EmptyString => None
  | String c s' =>
      if Ascii.eqb c dquote then Some (EmptyString, s')
      else if Ascii.eqb c "\"%char || (Ascii.nat_of_ascii c <? 32)%nat then None
      else '(body, rest) ← string_body s'; Some (String c body, rest)
  end.

Fixpoint strip_prefix (p s : string) : option string :=
  match p, s with
  | EmptyString, _ => Some s
  | String a p', String b s' => if Ascii.eqb a b then strip_prefix p' s' else None
  | String _ _, EmptyString => None
  end.

(** [o[key] = v] on own properties: a key met again keeps its place and
    takes the new value. *)
Fixpoint set_property (key : string) (v : JSValue) (o : list (string * JSValue))
    : list (string * JSValue) :=
  match o with
  | [] => [(key, v)]
  | (k, w) :: rest =>
      if String.eqb k key then (k, v) :: rest else (k, w) :: set_property key v rest
  end.

(** A recursive-descent reader of the JSON texts built from [null], [true],
    [false], strings without escape sequences, arrays and objects. *)
Fixpoint value (fuel : nat) (s : string) : option (JSValue * string) :=
  match fuel with
  | O => None
  | S fuel =>
      match skip_ws s with
      | EmptyString => None
      | String c rest =>
          if Ascii.eqb c dquote then
            '(body, rest') ← string_body rest; Some (JString body, rest')
          else if Ascii.eqb c "["%char then
            match skip_ws rest with
            | String "]"%char rest' => Some (JArray [], rest')
            | _ => '(items, rest') ← elements fuel rest; Some (JArray items, rest')
            end
          else if Ascii.eqb c "{"%char then
            match skip_ws rest with
            | String "}"%char rest' => Some (JObject [], rest')
            | _ =>
                '(members, rest') ← members fuel rest;
                Some (JObject (foldl (fun o kv => set_property kv.1 kv.2 o) [] members),
                      rest')
            end
          else
            match strip_prefix "null" (String c rest),
                  strip_prefix "true" (String c rest),
                  strip_prefix "false" (String c rest) with
            | Some rest', _, _ => Some (JNull, rest')
            | _, Some rest', _ => Some (JBool true, rest')
            | _, _, Some rest' => Some (JBool false, rest')
            | _, _, _ => None
            end
      end
  end
with elements (fuel : nat) (s : string) : option (list JSValue * string) :=
  match fuel with
  | O => None
  | S fuel =>
      '(v, rest) ← value fuel s;
      match skip_ws rest with
      | String ","%char rest' =>
          '(vs, rest'') ← elements fuel rest'; Some (v :: vs, rest'')
      | String "]"%char rest' => Some ([v], rest')
      | _ => None
      end
  end
with members (fuel : nat) (s : string) : option (list (string * JSValue) * string) :=
  match fuel with
  | O => None
  | S fuel =>
      match skip_ws s with
      | String c rest =>
          if Ascii.eqb c dquote then
            '(key, rest) ← string_body rest;
            match skip_ws rest with
            | String ":"%char rest =>
                '(v, rest) ← value fuel rest;
                match skip_ws rest with
                | String ","%char rest' =>
                    '(kvs, rest'') ← members fuel rest'; Some ((key, v) :: kvs, rest'')
                | String "}"%char rest' => Some ([(key, v)], rest')
                | _ => None
                end
            | _ => None
            end
          else None
      | EmptyString => None
      end
  end.

(** [JSON.parse] on that fragment, and a [SyntaxError] on every other
    text (the message of the real one depends on the engine). *)
Definition JSON_parse (text : string) : Completion JSValue :=
  match value (2 * String.length text + 2) text with
  | Some (v, rest) =>
      if is_empty (skip_ws rest) then Normal v
      else Throw (ThrownError "Unexpected non-whitespace character after JSON")
  | None => Throw (ThrownError "Unexpected token")
  end.

(** [QuoteJSONString]: the double quote and the backslash are escaped, a
    control character is written by its short escape or as [\u00XX]. *)
Definition hex_digit (n : nat) : ascii :=
  Ascii.ascii_of_nat (if (n <? 10)%nat then 48 + n else 87 + n).

Definition escape_char (c : ascii) : string :=
  let n := Ascii.nat_of_ascii c in
  if Ascii.eqb c dquote then String "\"%char (String dquote EmptyString)
  else if Ascii.eqb c "\"%char then "\\"
  else if (n =? 8)%nat then "\b"
  else if (n =? 9)%nat then "\t"
  else if (n =? 10)%nat then "\n"
  else if (n =? 12)%nat then "\f"
  else if (n =? 13)%nat then "\r"
  else if (n <? 32)%nat then
    "\u00" +:+ String (hex_digit (n / 16)) (String (hex_digit (n mod 16)) EmptyString)
  else String c EmptyString.

Fixpoint escape_string (s : string) : string :=
  match s with
  | EmptyString => EmptyString
  | String c s' => escape_char c +:+ escape_string s'
  end.

(** [Number::toString] for the integers of magnitude at most 2^53; the
    numbers that are not finite print as [null], as [JSON.stringify]
    has it.  The other numbers are outside the fragment printed here (they
    print as [null] too). *)
Definition number_text (x : spec_float) : string :=
  match x with
  | S754_zero _ => "0"
  | S754_finite sign m e =>
      let z := (if (0 <=? e)%Z then Z.pos m * 2 ^ e
                else if (Z.pos m mod 2 ^ (- e) =? 0)%Z then Z.pos m / 2 ^ (- e)
                else 0)%Z in
      if ((0 <? z) && (z <=? 2 ^ 53))%Z then pretty (if sign then (- z)%Z else z)
      else "null"
  | S754_infinity _ | S754_nan => "null"
  end.

(** [SerializeJSONProperty]: [None] is [undefined].  [indent] is the
    current indentation and [gap] the unit of indentation. *)
Fixpoint serialize (indent gap : string) (v : JSValue) : option string :=
  let inner := indent +:+ gap in
  let separator := if is_empty gap then "," else "," +:+ NL +:+ inner in
  let wrap (opening closing : string) (parts : list string) : string :=
    match parts with
    | [] => opening +:+ closing
    | _ =>
        if is_empty gap then opening +:+ join separator parts +:+ closing
        else opening +:+ NL +:+ inner +:+ join separator parts
             +:+ NL +:+ indent +:+ closing
    end in
  match v with
  | JUndefined => None
  | JNull => Some "null"
  | JBool b => Some (if b then "true" else "false")
  | JNumber x => Some (number_text x)
  | JString s => Some (quoted (escape_string s))
  | JArray items =>
      Some (wrap "[" "]"
              ((fix each (vs : list JSValue) : list string :=
                  match vs with
                  | [] => []
                  | w :: ws => default "null" (serialize inner gap w) :: each ws
                  end) items))
  | JObject properties =>
      Some (wrap "{" "}"
              ((fix each (kvs : list (string * JSValue)) : list string :=
                  match kvs with
                  | [] => []
                  | (k, w) :: rest =>
                      match serialize inner gap w with
                      | Some text =>
                          (quoted (escape_string k)
                           +:+ (if is_empty gap then ":" else ": ") +:+ text)
                          :: each rest
                      | None => each rest
                      end
                  end) properties))
  end.

(** [JSON.stringify(value, null, space)] on a value that is not
    [undefined]. *)
Definition JSON_stringify (v : JSValue) (space : nat) : string :=
  default "" (serialize "" (String.string_of_list_ascii (replicate (min space 10) " "%char)) v).

(** [Number::toString] on the same numbers, with the names of the numbers
    that are not finite. *)
Definition Number_toString (x : spec_float) : string :=
  match x with
  | S754_nan => "NaN"
  | S754_infinity sign => if sign then "-Infinity" else "Infinity"
  | _ => number_text x
  end.

(** The message of a [TypeError] (the message of the real one depends on
    the engine). *)
Definition TypeError_message (expression : string) : string :=
  "Cannot evaluate " +:+ expression.

(** A database kept as the list of its rows, oldest first.  An insert is
    rejected when a required column is given no string, when the url is
    given a value that is neither a string nor [null] nor [undefined], or
    when the owner has a row of the same title already (a uniqueness
    constraint, so that a valid entry can be rejected too); [select] never
    fails. *)
Definition same_title (userId : nat) (t : string) (row : StoredEntry) : bool :=
  (stored_userId row =? userId)%nat && String.eqb (stored_title row) t.

(** The value of a required column. *)
Definition required (v : JSValue) : option string :=
  match v with
  | JString s => Some s
  | _ => None
  end.

(** The value of an optional column: [null] for [null] and [undefined]. *)
Definition nullable (v : JSValue) : option (option string) :=
  match v with
  | JString s => Some (Some s)
  | JUndefined | JNull => Some None
  | _ => None
  end.

Definition list_insert (values : InsertValues) (rows : list StoredEntry)
    : list StoredEntry * option Thrown :=
  match required (values_type values), required (values_title values),
        required (values_content values) with
  | Some ty, Some ti, Some co =>
      match nullable (values_url values) with
      | Some ur =>
          if existsb (same_title (values_userId values) ti) rows then
            (rows, Some (ThrownError "Duplicate entry"))
          else
            (push rows {| stored_userId := values_userId values; stored_type := ty;
                          stored_title := ti; stored_content := co;
                          stored_url := ur;
                          stored_metadata := values_metadata values |},
             None)
      | None => (rows, Some (ThrownError "Incorrect string value"))
      end
  | _, _, _ => (rows, Some (ThrownError "Column cannot be null"))
  end.

Definition list_db : Driver (list StoredEntry) :=
  {| db_insert := list_insert; db_select := fun rows => Normal rows |}.

(** *** Sample data *)

(** The entry of scenario D of the specification. *)
Definition track : ImportEntry :=
  {| type := Some "music"; title := Some "Track 1"; content := Some "My song";
     url := None; metadata := None |}.

(** An entry that violates two rules: its type is not a valid one and its
    title is empty. *)
Definition bogus_untitled : ImportEntry :=
  {| type := Some "bogus"; title := Some ""; content := Some "x";
     url := None; metadata := None |}.

(** A JSON member whose value is a string. *)
Definition member (key text : string) : string :=
  quoted key +:+ ":" +:+ quoted text.

(** The JSON text of the array of [track] and [bogus_untitled]. *)
Definition two_records : string :=
  "[{" +:+ join "," [member "type" "music"; member "title" "Track 1";
                     member "content" "My song"]
  +:+ "},{" +:+ join "," [member "type" "bogus"; member "title" "";
                          member "content" "x"]
  +:+ "}]".

(** What [importFromJSON] makes of [two_records] for user 1, from an empty
    database: the result, and the row it stores. *)
Definition two_records_result : ImportResult :=
  {| success := false; totalRows := 2; importedRows := 1; skippedRows := 1;
     errors :=
       [{| rowIndex := 1;
           rowError := "Invalid type: bogus. Must be one of: website, book, music, artist, feature, blog" |};
        {| rowIndex := 1; rowError := "Missing or empty title" |}] |}.

Definition track_row : StoredEntry :=
  {| stored_userId := 1; stored_type := "music"; stored_title := "Track 1";
     stored_content := "My song"; stored_url := None; stored_metadata := None |}.

(** A row of user 1, without url and metadata, and a row of user 2. *)
Definition site : StoredEntry :=
  {| stored_userId := 1; stored_type := "website"; stored_title := "T";
     stored_content := "C"; stored_url := None; stored_metadata := None |}.

Definition secret : StoredEntry :=
  {| stored_userId := 2; stored_type := "book"; stored_title := "Other";
     stored_content := "Secret"; stored_url := Some "http://x";
     stored_metadata := Some "{}" |}.

(** A CSV text whose second data row has a metadata field that is not JSON,
    and the rows [parseCSV] reads from it. *)
Definition bad_metadata_csv : string :=
  join NL ["title,content,metadata"; "A,B,"; "T,C,not json"].

Definition bad_metadata_row : gmap string string :=
  <["metadata" := "not json"]> (<["content" := "C"]> (<["title" := "T"]> ∅)).

Definition bad_metadata_rows : list (gmap string string) :=
  [<["metadata" := ""]> (<["content" := "B"]> (<["title" := "A"]> ∅));
   bad_metadata_row].

(** The JSON text of an array of one record whose title is [null], and
    what [importFromJSON] makes of it. *)
Definition null_title : string :=
  "[{" +:+ join "," [member "type" "music"; quoted "title" +:+ ":null";
                     member "content" "x"]
  +:+ "}]".

Definition null_title_result : ImportResult :=
  {| success := false; totalRows := 1; importedRows := 0; skippedRows := 1;
     errors := [{| rowIndex := 0; rowError := "Missing or empty title" |}] |}.

(** The JSON text [exportAsJSON] writes for an entry without url and
    metadata, on one line: the url is [null]. *)
Definition site_record : string :=
  "[{" +:+ join "," [member "type" "website"; member "title" "T";
                     member "content" "C"; quoted "url" +:+ ":null"]
  +:+ "}]".

Definition site_result : ImportResult :=
  {| success := true; totalRows := 1; importedRows := 1; skippedRows := 0;
     errors := [] |}.

End Reference.

(** ** More sample data *)

Module Samples.

(** A database without constraint, kept as the list of its rows: every
    insert is accepted, a required column that is given no string is stored
    as the empty text, and a url that is given no string as [null]. *)
Definition append_db : Driver (list StoredEntry) :=
  {| db_insert := fun values rows =>
       (push rows {| stored_userId := values_userId values;
                     stored_type := default "" (Reference.required (values_type values));
                     stored_title := default "" (Reference.required (values_title values));
                     stored_content :=
                       default "" (Reference.required (values_content values));
                     stored_url := Reference.required (values_url values);
                     stored_metadata := values_metadata values |},
        None);
     db_select := fun rows => Normal rows |}.

(** A header with the name [__proto__] and a data row, and the row
    [parseCSV] reads: it has the key [title] only. *)
Definition proto_csv : string :=
  join NL ["__proto__,title"; "x,T"].

Definition proto_rows : list (gmap string string) :=
  [<["title" := "T"]> ∅].

(** A row of user 2 whose metadata is no JSON text. *)
Definition broken : StoredEntry :=
  {| stored_userId := 2; stored_type := "book"; stored_title := "Other";
     stored_content := "Text"; stored_url := None;
     stored_metadata := Some "not json" |}.

(** Four purchases: an active monthly one, a canceled lifetime one, an
    active lifetime one, and an active monthly one whose period has ended
    at the time 1000. *)
Definition purchases : list Purchase :=
  [{| purchase_planId := "monthly"; purchase_status := "active";
      purchase_currentPeriodEnd := 2000 |};
   {| purchase_planId := "lifetime"; purchase_status := "canceled";
      purchase_currentPeriodEnd := 500 |};
   {| purchase_planId := "lifetime"; purchase_status := "active";
      purchase_currentPeriodEnd := 3000 |};
   {| purchase_planId := "monthly"; purchase_status := "active";
      purchase_currentPeriodEnd := 900 |}].

(** A clock that reads 1000 at every call. *)
Definition at_1000 (i : nat) : Z := 1000.

(** A row with a title and a content, without type, and the entry
    [csvToEntries] makes of it. *)
Definition first_row : gmap string string :=
  <["metadata" := ""]> (<["content" := "B"]> (<["title" := "A"]> ∅)).

Definition first_row_entry : ImportEntry :=
  {| type := Some "website"; title := Some "A"; content := Some "B";
     url := None; metadata := None |}.

End Samples.

(** * Properties *)

Section Properties.

Variable JSON_parse : string -> Completion JSValue.
Variable JSON_stringify : JSValue -> nat -> string.
Variable Number_toString : spec_float -> string.
Variable TypeError_message : string -> string.
Variable Store : Type.

Local Abbreviation importEntries' := (importEntries JSON_stringify (Store := Store)).
Local Abbreviation importFromCSV' := (importFromCSV JSON_parse JSON_stringify (Store := Store)).
Local Abbreviation importFromJSON' :=
  (importFromJSON JSON_parse JSON_stringify Number_toString TypeError_message
     (Store := Store)).
Local Abbreviation untyped_importEntries :=
  (Untyped.importEntries JSON_stringify Number_toString TypeError_message
     (Store := Store)).
Local Abbreviation untyped_import_loop :=
  (Untyped.import_loop JSON_stringify TypeError_message (Store := Store)).
Local Abbreviation untyped_import_entry :=
  (Untyped.import_entry JSON_stringify TypeError_message (Store := Store)).

(** ** The row loop of [importEntries] *)

(** One turn of the loop counts its row once, as imported or as skipped,
    and leaves [totalRows] alone. *)
Lemma import_entry_counts (db : Driver Store) userId valid i entry result store :
  importedRows (import_entry JSON_stringify db userId valid i entry (result, store)).1
  + skippedRows (import_entry JSON_stringify db userId valid i entry (result, store)).1
  = S (importedRows result + skippedRows result)
  ∧ totalRows (import_entry JSON_stringify db userId valid i entry (result, store)).1
    = totalRows result.
Proof.
  unfold import_entry.
  destruct (negb (bool_decide (i ∈ valid))); simpl; [lia|].
  destruct (db_insert db _ store) as [store' [thrown|]]; simpl; lia.
Qed.

Lemma import_loop_counts (db : Driver Store) userId valid entries :
  ∀ i state,
    importedRows (import_loop JSON_stringify db userId valid i entries state).1
    + skippedRows (import_loop JSON_stringify db userId valid i entries state).1
    = importedRows state.1 + skippedRows state.1 + length entries
    ∧ totalRows (import_loop JSON_stringify db userId valid i entries state).1
      = totalRows state.1.
Proof.
  induction entries as [|entry entries IH]; intros i [result store];
    cbn [import_loop length].
  - simpl. split; [lia | reflexivity].
  - destruct (IH (S i) (import_entry JSON_stringify db userId valid i entry (result, store)))
      as [Hcount Htotal].
    destruct (import_entry_counts db userId valid i entry result store) as [Hc Ht].
    rewrite Hcount, Htotal, Hc, Ht. cbn [fst]. split; [lia | reflexivity].
Qed.

(** The counts of a result of [importEntries] add up, with or without a
    database. *)
Lemma importEntries_counts (db : option (Driver Store)) userId entries store :
  let r := (importEntries' db userId entries store).1 in
  totalRows r = importedRows r + skippedRows r.
Proof.
  unfold importEntries. destruct db as [db|]; simpl; [|reflexivity].
  match goal with |- context [import_loop _ db userId ?v 0 entries ?st] =>
    pose proof (import_loop_counts db userId v entries 0 st) as [Hcount Htotal];
    destruct (import_loop JSON_stringify db userId v 0 entries st) as [result store']
  end.
  simpl in *. lia.
Qed.

(** [success] is computed from [skippedRows] after the loop; without a
    database it is [false] whatever the counts. *)
Lemma importEntries_success (db : option (Driver Store)) userId entries store :
  let r := (importEntries' db userId entries store).1 in
  success r = match db with
              | Some _ => bool_decide (skippedRows r = 0)
              | None => false
              end.
Proof.
  unfold importEntries. destruct db as [db|]; simpl; [|reflexivity].
  destruct (import_loop _ _ _ _ _ _ _) as [result store']. simpl.
  destruct (skippedRows result); reflexivity.
Qed.

(** ** The two short circuits of [importFromCSV] and [importFromJSON] *)

Lemma parseCSV_too_few_lines content :
  length (lines_of content) < 2 →
  parseCSV content
  = Throw (ThrownError "CSV must have at least a header row and one data row").
Proof.
  intros Hfew. unfold parseCSV.
  destruct (Nat.ltb_spec (length (lines_of content)) 2); [reflexivity | lia].
Qed.

Lemma importFromCSV_too_few_lines (db : option (Driver Store)) userId content store :
  length (lines_of content) < 2 →
  importFromCSV' db userId content store
  = (parse_failure "CSV parsing failed: "
       (ThrownError "CSV must have at least a header row and one data row"),
     store).
Proof.
  intros Hfew. unfold importFromCSV. rewrite parseCSV_too_few_lines by done.
  reflexivity.
Qed.

(** A result of [importFromCSV] is a parse failure or a result of
    [importEntries]. *)
Lemma importFromCSV_cases (db : option (Driver Store)) userId content store :
  (∃ thrown, importFromCSV' db userId content store
             = (parse_failure "CSV parsing failed: " thrown, store))
  ∨ (∃ entries, importFromCSV' db userId content store
                = importEntries' db userId entries store).
Proof.
  unfold importFromCSV.
  destruct (parseCSV content ≫= _) as [entries|thrown]; eauto.
Qed.

(** The outcome of [importFromJSON] is a parse failure or the outcome of
    [importEntries] on the parsed array. *)
Lemma importFromJSON_cases (db : option (Driver Store)) userId content store :
  (∃ thrown, importFromJSON' db userId content store
             = (Normal (parse_failure "JSON parsing failed: " thrown), store))
  ∨ (∃ entries, importFromJSON' db userId content store
                = untyped_importEntries db userId entries store).
Proof.
  unfold importFromJSON.
  destruct (parseJSON JSON_parse content) as [entries|thrown]; eauto.
Qed.

(** ** The row loop of [importEntries] on values of any shape *)

Lemma untyped_import_entry_counts (db : Driver Store) userId valid i entry result store :
  importedRows (untyped_import_entry db userId valid i entry (result, store)).1
  + skippedRows (untyped_import_entry db userId valid i entry (result, store)).1
  = S (importedRows result + skippedRows result)
  ∧ totalRows (untyped_import_entry db userId valid i entry (result, store)).1
    = totalRows result.
Proof.
  unfold Untyped.import_entry.
  destruct (negb (bool_decide (i ∈ valid))); simpl; [lia|].
  destruct (Untyped.insert_values _ _ userId entry) as [values|thrown]; simpl; [|lia].
  destruct (db_insert db values store) as [store' [thrown|]]; simpl; lia.
Qed.

Lemma untyped_import_loop_counts (db : Driver Store) userId valid entries :
  ∀ i state,
    importedRows (untyped_import_loop db userId valid i entries state).1
    + skippedRows (untyped_import_loop db userId valid i entries state).1
    = importedRows state.1 + skippedRows state.1 + length entries
    ∧ totalRows (untyped_import_loop db userId valid i entries state).1
      = totalRows state.1.
Proof.
  induction entries as [|entry entries IH]; intros i [result store];
    cbn [Untyped.import_loop length].
  - simpl. split; [lia | reflexivity].
  - destruct (IH (S i) (untyped_import_entry db userId valid i entry (result, store)))
      as [Hcount Htotal].
    destruct (untyped_import_entry_counts db userId valid i entry result store)
      as [Hc Ht].
    rewrite Hcount, Htotal, Hc, Ht. cbn [fst]. split; [lia | reflexivity].
Qed.

(** When the promise of [importEntries] is fulfilled, the result is the one
    of the short circuit or the one the loop leaves, with [success] computed
    from [skippedRows]. *)
Lemma untyped_importEntries_cases (db : option (Driver Store)) userId entries store
    result store' :
  untyped_importEntries db userId entries store = (Normal result, store') →
  totalRows result = length entries
  ∧ totalRows result = importedRows result + skippedRows result
  ∧ match db with
    | Some _ => success result = bool_decide (skippedRows result = 0)
    | None => success result = false ∧ skippedRows result = length entries
    end.
Proof.
  unfold Untyped.importEntries.
  destruct (Untyped.validateEntries _ _ entries) as [validationErrors|thrown]; [|done].
  destruct db as [db|].
  - match goal with |- context [Untyped.import_loop _ _ db userId ?v 0 entries ?st] =>
      pose proof (untyped_import_loop_counts db userId v entries 0 st) as [Hcount Htotal];
      destruct (Untyped.import_loop JSON_stringify TypeError_message db userId v 0 entries st)
        as [loop store'']
    end.
    intros [= <- <-]. simpl in *. split; [done|]. split; [lia|].
    destruct (skippedRows loop); reflexivity.
  - intros [= <- <-]. simpl. done.
Qed.

(** ** Row accounting and the success flag *)

(** C3.  The counts of every result of an import operation add up,
    [totalRows = importedRows + skippedRows]: for [importEntries] with a
    database (the row loop) and without one (the short circuit), for
    [importFromCSV] and for [importFromJSON], parse failures included.  For
    [importFromJSON] this is every result its promise is fulfilled with,
    whatever the items of the parsed array are; so it is for [importEntries]
    on an array of values of any shape. *)
Theorem row_accounting (db : option (Driver Store)) (userId : nat) (store : Store) :
  (∀ entries,
      totalRows (importEntries' db userId entries store).1
      = importedRows (importEntries' db userId entries store).1
        + skippedRows (importEntries' db userId entries store).1)
  ∧ (∀ csvContent,
      totalRows (importFromCSV' db userId csvContent store).1
      = importedRows (importFromCSV' db userId csvContent store).1
        + skippedRows (importFromCSV' db userId csvContent store).1)
  ∧ (∀ jsonContent result store',
      importFromJSON' db userId jsonContent store = (Normal result, store') →
      totalRows result = importedRows result + skippedRows result)
  ∧ (∀ values result store',
      untyped_importEntries db userId values store = (Normal result, store') →
      totalRows result = importedRows result + skippedRows result).
Proof.
  assert (Huntyped : ∀ values result store',
      untyped_importEntries db userId values store = (Normal result, store') →
      totalRows result = importedRows result + skippedRows result).
  { intros values result store' Hout.
    by destruct (untyped_importEntries_cases _ _ _ _ _ _ Hout) as (_ & ? & _). }
  split; [|split; [|split]].
  - intros entries. apply importEntries_counts.
  - intros csvContent.
    destruct (importFromCSV_cases db userId csvContent store) as [[t ->]|[es ->]];
      [reflexivity | apply importEntries_counts].
  - intros jsonContent result store'.
    destruct (importFromJSON_cases db userId jsonContent store) as [[t ->]|[es ->]].
    + intros [= <- <-]. reflexivity.
    + apply Huntyped.
  - exact Huntyped.
Qed.

(** C2, amended.  In every result of an import operation [success = true]
    implies [skippedRows = 0].  The converse holds for the results of
    [importEntries] when the database is available or the batch is not
    empty; it fails for a parse failure and for an empty batch without a
    database, which have [success = false] and [skippedRows = 0].  The
    results of [importFromJSON] are all those its promise is fulfilled
    with, whatever the items of the parsed array are, and the last part
    states both directions for [importEntries] on values of any shape. *)
Theorem success_implies_none_skipped (db : option (Driver Store)) (userId : nat)
    (store : Store) :
  (∀ entries,
      (success (importEntries' db userId entries store).1 = true →
       skippedRows (importEntries' db userId entries store).1 = 0)
      ∧ (is_Some db ∨ entries ≠ [] →
         skippedRows (importEntries' db userId entries store).1 = 0 →
         success (importEntries' db userId entries store).1 = true))
  ∧ (∀ csvContent,
      success (importFromCSV' db userId csvContent store).1 = true →
      skippedRows (importFromCSV' db userId csvContent store).1 = 0)
  ∧ (∀ jsonContent result store',
      importFromJSON' db userId jsonContent store = (Normal result, store') →
      success result = true → skippedRows result = 0)
  ∧ (∀ values result store',
      untyped_importEntries db userId values store = (Normal result, store') →
      (success result = true → skippedRows result = 0)
      ∧ (is_Some db ∨ values ≠ [] →
         skippedRows result = 0 → success result = true)).
Proof.
  assert (Hentries : ∀ entries,
      success (importEntries' db userId entries store).1 = true →
      skippedRows (importEntries' db userId entries store).1 = 0).
  { intros entries. rewrite importEntries_success.
    destruct db; [|done]. intros H. by apply bool_decide_eq_true in H. }
  assert (Huntyped : ∀ values result store',
      untyped_importEntries db userId values store = (Normal result, store') →
      (success result = true → skippedRows result = 0)
      ∧ (is_Some db ∨ values ≠ [] →
         skippedRows result = 0 → success result = true)).
  { intros values result store' Hout.
    destruct (untyped_importEntries_cases _ _ _ _ _ _ Hout) as (_ & _ & Hsuccess).
    destruct db as [d|].
    - rewrite Hsuccess. split.
      + intros H. by apply bool_decide_eq_true in H.
      + intros _ H. by apply bool_decide_eq_true.
    - destruct Hsuccess as [-> ->]. split; [done|].
      intros [[? [=]]|Hne]. by destruct values. }
  split; [|split; [|split]].
  - intros entries. split; [apply Hentries|].
    intros Hdb. rewrite importEntries_success. destruct db as [d|].
    + intros H. by apply bool_decide_eq_true.
    + destruct Hdb as [[? [=]]|Hne]. destruct entries; [done|]. simpl. done.
  - intros csvContent.
    destruct (importFromCSV_cases db userId csvContent store) as [[t ->]|[es ->]];
      [done | apply Hentries].
  - intros jsonContent result store'.
    destruct (importFromJSON_cases db userId jsonContent store) as [[t ->]|[es ->]].
    + intros [= <- <-]. done.
    + intros Hout. by destruct (Huntyped es result store' Hout).
  - exact Huntyped.
Qed.

(** C5.  Without a database handle [importEntries] returns, for a batch of
    [N] entries (an empty one too), the result with [success = false],
    [totalRows = N], [importedRows = 0], [skippedRows = N] and the single
    error [Database not initialized] at row 0.  No insert is attempted: the
    function returns before its loop, and the contents of the database are
    what they were. *)
Theorem storage_unavailable_short_circuit (userId : nat) (entries : list ImportEntry)
    (store : Store) :
  importEntries' None userId entries store
  = ({| success := false; totalRows := length entries; importedRows := 0;
        skippedRows := length entries;
        errors := [{| rowIndex := 0; rowError := "Database not initialized" |}] |},
     store).
Proof. unfold importEntries. reflexivity. Qed.

(** C7.  For a text with fewer than two lines that are not blank,
    [importFromCSV] returns (it does not throw: the exception of [parseCSV]
    is caught) the result with [totalRows = 0], [importedRows = 0] and one
    error, at row 0; the database is not touched. *)
Theorem importFromCSV_too_few_rows (db : option (Driver Store)) (userId : nat)
    (csvContent : string) (store : Store) :
  length (lines_of csvContent) < 2 →
  importFromCSV' db userId csvContent store
  = ({| success := false; totalRows := 0; importedRows := 0; skippedRows := 0;
        errors :=
          [{| rowIndex := 0;
              rowError := "CSV parsing failed: CSV must have at least a header row and one data row" |}] |},
     store).
Proof.
  intros Hfew. rewrite importFromCSV_too_few_lines by done. reflexivity.
Qed.

(** C10.  With a database, [importFromJSON] of the text of the empty array
    succeeds with all counts 0 and no error, given that [JSON.parse] reads
    that text as the empty array; [importFromCSV] of a text without a data
    row (at most one line that is not blank) is a parse failure. *)
Theorem empty_batch_succeeds_through_JSON_only (db : Driver Store) (userId : nat)
    (store : Store) :
  JSON_parse "[]" = Normal (JArray []) →
  importFromJSON' (Some db) userId "[]" store
  = (Normal {| success := true; totalRows := 0; importedRows := 0; skippedRows := 0;
               errors := [] |}, store)
  ∧ (∀ csvContent,
       (length (lines_of csvContent) ≤ 1)%nat →
       importFromCSV' (Some db) userId csvContent store
       = ({| success := false; totalRows := 0; importedRows := 0; skippedRows := 0;
             errors :=
               [{| rowIndex := 0;
                   rowError := "CSV parsing failed: CSV must have at least a header row and one data row" |}] |},
          store)).
Proof.
  intros Hparse. split.
  - unfold importFromJSON, parseJSON. rewrite Hparse. reflexivity.
  - intros csvContent Hrows. rewrite importFromCSV_too_few_lines by lia. reflexivity.
Qed.

(** ** Validation *)

Lemma trim_empty_of_empty s : is_empty s = true → is_empty (trim s) = true.
Proof. destruct s; [reflexivity | discriminate]. Qed.

Lemma length_of_empty s : is_empty s = true → (255 <? String.length s)%nat = false.
Proof. destruct s; [reflexivity | discriminate]. Qed.

(** One turn of the loop of [validateEntries] appends the records of the
    rules its entry violates. *)
Lemma validate_entry_violations i entry errors :
  validate_entry i entry errors = (errors ++ violations i entry)%list.
Proof.
  unfold validate_entry, violations, rules, push.
  destruct entry as [ty ti co u md]; cbn [type title content List.filter violates falsy].
  destruct ty as [ty|], ti as [ti|], co as [co|];
    cbn [default from_option id falsy negb orb andb].
  all: repeat match goal with
       | |- context [is_empty ?s] =>
           lazymatch s with
           | trim _ => fail
           | _ => let E := fresh "E" in
                  destruct (is_empty s) eqn:E;
                  [ try rewrite (trim_empty_of_empty s E);
                    try rewrite (length_of_empty s E) | ]
           end
       end.
  all: cbn [negb orb andb].
  all: repeat match goal with
       | |- context [if ?b then _ else _] => destruct b
       end.
  all: cbn [fmap list_fmap]; rewrite <- ?app_assoc, ?app_nil_r; reflexivity.
Qed.

Lemma validate_loop_violations entries :
  ∀ i errors,
    validate_loop i entries errors = (errors ++ violations_from i entries)%list.
Proof.
  induction entries as [|entry entries IH]; intros i errors; cbn [validate_loop violations_from].
  - by rewrite app_nil_r.
  - by rewrite IH, validate_entry_violations, app_assoc.
Qed.

(** The records of one entry all name its index. *)
Lemma errors_at_violations i j entry :
  errors_at j (violations i entry) = if (i =? j)%nat then violations i entry else [].
Proof.
  unfold errors_at, violations.
  induction (List.filter (fun r => violates r entry) rules) as [|r rs IH];
    cbn [fmap list_fmap List.filter index].
  - by destruct (i =? j)%nat.
  - cbn [fmap] in IH. rewrite IH. by destruct (i =? j)%nat.
Qed.

Lemma errors_at_violations_before entries :
  ∀ k j, j < k → errors_at j (violations_from k entries) = [].
Proof.
  induction entries as [|entry entries IH]; intros k j Hlt; cbn [violations_from].
  - reflexivity.
  - unfold errors_at in *. rewrite List.filter_app.
    fold (errors_at j (violations k entry)). rewrite errors_at_violations.
    destruct (Nat.eqb_spec k j); [lia|]. rewrite IH by lia. reflexivity.
Qed.

Lemma errors_at_violations_from entries :
  ∀ k i entry,
    entries !! i = Some entry →
    errors_at (k + i) (violations_from k entries) = violations (k + i) entry.
Proof.
  induction entries as [|entry' entries IH]; intros k i entry Hlookup; [done|].
  cbn [violations_from]. unfold errors_at. rewrite List.filter_app.
  fold (errors_at (k + i) (violations k entry')).
  fold (errors_at (k + i) (violations_from (S k) entries)).
  rewrite errors_at_violations. destruct i as [|i]; cbn in Hlookup.
  - injection Hlookup as ->. rewrite Nat.add_0_r, Nat.eqb_refl.
    rewrite errors_at_violations_before by lia. by rewrite app_nil_r.
  - destruct (Nat.eqb_spec k (k + S i)); [lia|].
    replace (k + S i) with (S k + i) by lia. by rewrite (IH (S k) i entry).
Qed.

(** C6.  [validateEntries] gives, entry after entry, one record for each
    rule the entry violates, in the order of the rules and with the index of
    the entry in the sequence.  So the records that name an index are those
    of the rules its entry violates, whatever the other entries are, and an
    entry that violates two rules exactly has two records exactly, both with
    its index. *)
Theorem validation_independence (entries : list ImportEntry) :
  validateEntries entries = violations_from 0 entries
  ∧ (∀ i entry,
       entries !! i = Some entry →
       errors_at i (validateEntries entries) = violations i entry)
  ∧ (∀ i entry r1 r2,
       entries !! i = Some entry →
       List.filter (fun r => violates r entry) rules = [r1; r2] →
       errors_at i (validateEntries entries)
       = [{| index := i; error := rule_error r1 entry |};
          {| index := i; error := rule_error r2 entry |}]).
Proof.
  assert (Hall : validateEntries entries = violations_from 0 entries).
  { unfold validateEntries. by rewrite validate_loop_violations. }
  assert (Hat : ∀ i entry, entries !! i = Some entry →
                errors_at i (validateEntries entries) = violations i entry).
  { intros i entry Hlookup. rewrite Hall.
    apply (errors_at_violations_from entries 0 i entry Hlookup). }
  split; [exact Hall | split; [exact Hat |]].
  intros i entry r1 r2 Hlookup Htwo. rewrite (Hat i entry Hlookup).
  unfold violations. rewrite Htwo. reflexivity.
Qed.

(** ** The metadata of a CSV row *)

(** [csvToEntry] throws exactly when the metadata of the row is a text that
    is not empty and that [JSON.parse] rejects; it throws what [JSON.parse]
    threw. *)
Lemma csvToEntry_throws row thrown :
  csvToEntry JSON_parse row = Throw thrown
  ↔ ∃ m, row !! "metadata" = Some m ∧ is_empty m = false
         ∧ JSON_parse m = Throw thrown.
Proof.
  unfold csvToEntry. split.
  - destruct (row !! "metadata") as [m|]; [|done].
    destruct (is_empty m) eqn:Hm; [done|].
    destruct (JSON_parse m) as [v|t] eqn:Hparse; [done|].
    intros [= <-]. eauto.
  - intros (m & -> & -> & ->). reflexivity.
Qed.

(** [csvToEntries] throws as soon as one row has such a metadata text, and
    throws the exception of the first such row. *)
Lemma csvToEntries_throws rows :
  ∀ i row thrown,
    rows !! i = Some row →
    csvToEntry JSON_parse row = Throw thrown →
    ∃ j row' thrown',
      (j ≤ i)%nat ∧ rows !! j = Some row'
      ∧ csvToEntry JSON_parse row' = Throw thrown'
      ∧ csvToEntries JSON_parse rows = Throw thrown'.
Proof.
  induction rows as [|r rows IH]; intros i row thrown Hlookup Hthrow; [done|].
  unfold csvToEntries. cbn [mapC].
  destruct (csvToEntry JSON_parse r) as [entry|t] eqn:Hr.
  - destruct i as [|i]; cbn in Hlookup.
    + injection Hlookup as ->. congruence.
    + destruct (IH i row thrown Hlookup Hthrow) as (j & row' & t' & Hj & Hl & Ht & Hall).
      exists (S j), row', t'. unfold csvToEntries in Hall.
      split; [lia|]. split; [done|]. split; [done|]. cbn. by rewrite Hall.
  - exists 0%nat, r, t. split; [lia|]. done.
Qed.

(** C9.  When a row has a metadata text that is not empty and that
    [JSON.parse] rejects, [csvToEntry] throws that exception for it and
    [csvToEntries] throws for the whole list (the exception of the first
    such row): no entry is built and [validateEntries] is not reached.  In
    [importFromCSV] the exception ends in the [catch] of the parse step: the
    result counts no row at all and its only error is the one of a parse
    failure, at row 0 wherever the row stands. *)
Theorem metadata_exception_escapes_mapping (db : option (Driver Store))
    (userId : nat) (store : Store) (rows : list (gmap string string)) (i : nat)
    (row : gmap string string) (m : string) (thrown : Thrown) :
  rows !! i = Some row →
  row !! "metadata" = Some m →
  is_empty m = false →
  JSON_parse m = Throw thrown →
  csvToEntry JSON_parse row = Throw thrown
  ∧ ∃ j row' m' thrown',
      (j ≤ i)%nat ∧ rows !! j = Some row' ∧ row' !! "metadata" = Some m'
      ∧ is_empty m' = false ∧ JSON_parse m' = Throw thrown'
      ∧ csvToEntries JSON_parse rows = Throw thrown'
      ∧ ∀ csvContent,
          parseCSV csvContent = Normal rows →
          importFromCSV' db userId csvContent store
          = ({| success := false; totalRows := 0; importedRows := 0;
                skippedRows := 0;
                errors :=
                  [{| rowIndex := 0;
                      rowError := "CSV parsing failed: " +:+ error_message thrown' |}] |},
             store).
Proof.
  intros Hlookup Hm Hne Hparse.
  assert (Hrow : csvToEntry JSON_parse row = Throw thrown).
  { apply csvToEntry_throws. eauto. }
  split; [exact Hrow|].
  destruct (csvToEntries_throws rows i row thrown Hlookup Hrow)
    as (j & row' & thrown' & Hj & Hl & Ht & Hall).
  apply csvToEntry_throws in Ht as (m' & Hm' & Hne' & Hparse').
  exists j, row', m', thrown'. repeat (split; [done|]).
  intros csvContent Hrows. unfold importFromCSV. rewrite Hrows. cbn.
  rewrite Hall. reflexivity.
Qed.

(** ** The JSON export *)

(** C8, amended.  The record of a stored entry carries its [url] as it is
    stored ([null] when it has none).  Its [metadata] is [undefined], and no
    empty object, when the stored metadata is missing or empty; it is the
    value [JSON.parse] reads from the stored text otherwise, and the record
    is not built when [JSON.parse] throws on that text. *)
Theorem export_record_metadata (entry : StoredEntry) :
  (falsy (stored_metadata entry) = true →
   export_record JSON_parse entry = Normal (exported entry JUndefined))
  ∧ (∀ m v,
       stored_metadata entry = Some m → is_empty m = false →
       JSON_parse m = Normal v →
       export_record JSON_parse entry = Normal (exported entry v))
  ∧ (∀ m thrown,
       stored_metadata entry = Some m → is_empty m = false →
       JSON_parse m = Throw thrown →
       export_record JSON_parse entry = Throw thrown).
Proof.
  unfold export_record. split; [|split].
  - intros ->. reflexivity.
  - intros m v -> Hm Hparse. unfold falsy, or_string. rewrite Hm, Hparse. reflexivity.
  - intros m thrown -> Hm Hparse. unfold falsy, or_string. rewrite Hm, Hparse. reflexivity.
Qed.

(** ** Strings *)

Example split_example :
  split comma "type, title,,x" = ["type"; " title"; ""; "x"].
Proof. reflexivity. Qed.

Example trim_example : trim (" " +:+ NL +:+ " a b  " +:+ NL) = "a b".
Proof. reflexivity. Qed.

Lemma append_nil_r s : s +:+ "" = s.
Proof. induction s as [|c s IH]; [reflexivity|]. change (String c (s +:+ "") = String c s). by rewrite IH. Qed.

Lemma append_assoc s t u : (s +:+ t) +:+ u = s +:+ (t +:+ u).
Proof.
  induction s as [|c s IH]; [reflexivity|].
  change (String c ((s +:+ t) +:+ u) = String c (s +:+ (t +:+ u))). by rewrite IH.
Qed.

Lemma contains_append c s t : contains c (s +:+ t) = contains c s || contains c t.
Proof.
  induction s as [|a s IH]; [reflexivity|].
  change (Ascii.eqb a c || contains c (s +:+ t)
          = Ascii.eqb a c || contains c s || contains c t).
  rewrite IH. by destruct (Ascii.eqb a c).
Qed.

Lemma split_not_nil sep s : split sep s ≠ [].
Proof.
  destruct s as [|c s]; cbn; [done|].
  destruct (Ascii.eqb c sep); [done|]. by destruct (split sep s).
Qed.

Lemma split_without sep s : contains sep s = false → split sep s = [s].
Proof.
  induction s as [|c s IH]; cbn; [done|].
  intros [Hc Hs]%orb_false_elim. rewrite Hc, (IH Hs). reflexivity.
Qed.

Lemma split_append sep a b :
  contains sep a = false → split sep (a +:+ String sep b) = a :: split sep b.
Proof.
  induction a as [|c a IH]; intros Ha.
  - change (split sep (String sep b) = "" :: split sep b). cbn.
    by rewrite Ascii.eqb_refl.
  - cbn in Ha. apply orb_false_elim in Ha as [Hc Ha].
    change (split sep (String c (a +:+ String sep b)) = String c a :: split sep b).
    cbn. rewrite Hc, (IH Ha). reflexivity.
Qed.

Lemma split_snoc sep s : split sep (s +:+ String sep "") = (split sep s ++ [""])%list.
Proof.
  induction s as [|c s IH].
  - change (split sep (String sep "") = ["" ; ""]). cbn. by rewrite Ascii.eqb_refl.
  - change (split sep (String c (s +:+ String sep "")) = (split sep (String c s) ++ [""])%list).
    cbn. rewrite IH. destruct (Ascii.eqb c sep); [reflexivity|].
    pose proof (split_not_nil sep s). by destruct (split sep s).
Qed.

Lemma join_cons sep x y ys : join sep (x :: y :: ys) = x +:+ sep +:+ join sep (y :: ys).
Proof. reflexivity. Qed.

Lemma join_snoc sep xs x :
  xs ≠ [] → join sep (xs ++ [x]) = join sep xs +:+ sep +:+ x.
Proof.
  induction xs as [|y [|z zs] IH]; intros Hne; [done|reflexivity|].
  change ((y :: z :: zs) ++ [x])%list with (y :: (z :: zs) ++ [x])%list.
  change (((z :: zs) ++ [x])%list) with (z :: (zs ++ [x]))%list.
  rewrite join_cons. change (z :: (zs ++ [x]))%list with ((z :: zs) ++ [x])%list.
  rewrite IH by done. rewrite join_cons. by rewrite !append_assoc.
Qed.

(** Splitting what [join] joined gives the pieces back when no piece holds
    the separator. *)
Lemma split_join sep xs :
  xs ≠ [] → forallb (fun x => negb (contains sep x)) xs = true →
  split sep (join (String sep "") xs) = xs.
Proof.
  induction xs as [|x [|y ys] IH]; intros Hne Hall; [done| |].
  - cbn in Hall. rewrite andb_true_r in Hall. apply negb_true_iff in Hall.
    by apply split_without.
  - cbn [forallb] in Hall. apply andb_true_iff in Hall as [Hx Hrest].
    apply negb_true_iff in Hx. rewrite join_cons.
    change (String sep "" +:+ join (String sep "") (y :: ys))
      with (String sep (join (String sep "") (y :: ys))).
    rewrite split_append by done. by rewrite IH.
Qed.

Lemma is_empty_append_cons s c t : is_empty (s +:+ String c t) = false.
Proof. by destruct s. Qed.

Lemma trimEnd_ends c s :
  is_whitespace c = false → trimEnd (s +:+ String c "") = s +:+ String c "".
Proof.
  intros Hc. induction s as [|a s IH].
  - change (trimEnd (String c "") = String c ""). cbn. by rewrite Hc.
  - change (trimEnd (String a (s +:+ String c "")) = String a (s +:+ String c "")).
    cbn [trimEnd]. rewrite IH, is_empty_append_cons, andb_false_r. reflexivity.
Qed.

Lemma trim_quoted s : trim (quoted s) = quoted s.
Proof.
  unfold trim, quoted. cbn [trimStart].
  change (is_whitespace dquote) with false. cbn iota.
  change (String dquote (s +:+ String dquote "")) with (String dquote s +:+ String dquote "").
  by apply trimEnd_ends.
Qed.

Lemma not_blank_quoted s t : not_blank (quoted s +:+ t) = true.
Proof.
  unfold not_blank, trim, quoted.
  change (String dquote (s +:+ String dquote "") +:+ t)
    with (String dquote ((s +:+ String dquote "") +:+ t)).
  cbn [trimStart]. change (is_whitespace dquote) with false. cbn iota.
  cbn [trimEnd]. change (is_whitespace dquote) with false. reflexivity.
Qed.

Lemma escapeQuotes_plain s : contains dquote s = false → escapeQuotes s = s.
Proof.
  induction s as [|c s IH]; cbn; [done|].
  intros [Hc Hs]%orb_false_elim. rewrite Hc, (IH Hs). reflexivity.
Qed.

(** ** The text of [exportAsCSV], read back by [parseCSV] *)

Lemma csv_line_join entry : csv_line entry = join "," (csv_fields entry) +:+ NL.
Proof. unfold csv_line, csv_fields. cbn [join]. by rewrite !append_assoc. Qed.

(** The loop of [exportAsCSV] appends one line for each entry. *)
Lemma export_text rows :
  ∀ lines, lines ≠ [] →
    foldl (fun csv entry => csv +:+ csv_line entry) (join NL lines +:+ NL) rows
    = join NL (lines ++ ((fun entry => join "," (csv_fields entry)) <$> rows)) +:+ NL.
Proof.
  induction rows as [|entry rows IH]; intros lines Hne; cbn [foldl fmap list_fmap].
  - by rewrite app_nil_r.
  - rewrite csv_line_join.
    replace ((join NL lines +:+ NL) +:+ (join "," (csv_fields entry) +:+ NL))
      with (join NL (lines ++ [join "," (csv_fields entry)]) +:+ NL).
    + rewrite IH by (by destruct lines). by rewrite <- app_assoc.
    + rewrite join_snoc by done. by rewrite !append_assoc.
Qed.

Lemma filter_all {A : Type} (f : A → bool) (xs : list A) :
  forallb f xs = true → List.filter f xs = xs.
Proof.
  induction xs as [|x xs IH]; cbn; [done|].
  intros [Hx Hxs]%andb_true_iff. by rewrite Hx, IH.
Qed.

(** The lines [parseCSV] keeps of a text made of lines that hold no line
    feed and are not blank, each ended by a line feed: these lines. *)
Lemma lines_of_joined lines :
  lines ≠ [] →
  forallb (fun l => negb (contains LF l)) lines = true →
  forallb not_blank lines = true →
  lines_of (join NL lines +:+ NL) = lines.
Proof.
  intros Hne Hlf Hblank. unfold lines_of, NL.
  rewrite split_snoc, split_join by done.
  rewrite List.filter_app, filter_all by done. cbn. by rewrite app_nil_r.
Qed.

Lemma contains_quoted c s :
  Ascii.eqb dquote c = false → contains c (quoted s) = contains c s.
Proof.
  intros Hc. unfold quoted. cbn [contains]. rewrite Hc, contains_append. cbn.
  rewrite Hc. by rewrite !orb_false_r.
Qed.

Lemma one_field_quoted s :
  one_field s = true →
  contains comma (quoted s) = false ∧ contains LF (quoted s) = false.
Proof.
  unfold one_field. intros [Hc Hl]%andb_true_iff.
  apply negb_true_iff in Hc, Hl. by rewrite !contains_quoted.
Qed.

(** The fields of a safe entry, as they stand in its line. *)
Lemma csv_fields_safe entry :
  round_trip_safe entry = true →
  csv_fields entry
  = [quoted (stored_type entry); quoted (stored_title entry);
     quoted (stored_content entry); quoted (or_string (stored_url entry) "");
     quoted (or_string (stored_metadata entry) "")]
  ∧ forallb (fun x => negb (contains comma x)) (csv_fields entry) = true
  ∧ contains LF (join "," (csv_fields entry)) = false.
Proof.
  unfold round_trip_safe. rewrite !andb_true_iff, !negb_true_iff.
  intros [[[[[[Hty Hti] Hco] Hu] Hm] Hqt] Hqc].
  unfold csv_fields. rewrite (escapeQuotes_plain _ Hqt), (escapeQuotes_plain _ Hqc).
  destruct (one_field_quoted _ Hty) as [Hty1 Hty2].
  destruct (one_field_quoted _ Hti) as [Hti1 Hti2].
  destruct (one_field_quoted _ Hco) as [Hco1 Hco2].
  destruct (one_field_quoted _ Hu) as [Hu1 Hu2].
  destruct (one_field_quoted _ Hm) as [Hm1 Hm2].
  split; [reflexivity|]. split.
  - cbn [forallb]. by rewrite Hty1, Hti1, Hco1, Hu1, Hm1.
  - cbn [join]. rewrite !contains_append, Hty2, Hti2, Hco2, Hu2, Hm2. reflexivity.
Qed.

Lemma assign_key h v (row : gmap string string) :
  String.eqb h "__proto__" = false → assign h v row = <[h := v]> row.
Proof. unfold assign. by intros ->. Qed.

Lemma export_headers :
  trim <$> split comma "type,title,content,url,metadata"
  = ["type"; "title"; "content"; "url"; "metadata"].
Proof. reflexivity. Qed.

(** The row [parseCSV] builds from the line of a safe entry, mapped by
    [csvToEntry]. *)
Lemma csvToEntry_exported entry :
  round_trip_safe entry = true →
  csvToEntry JSON_parse
    (row_loop (trim <$> split comma (join "," (csv_fields entry))) 0
       ["type"; "title"; "content"; "url"; "metadata"] ∅)
  = quoted_entry JSON_parse entry.
Proof.
  intros Hsafe. destruct (csv_fields_safe entry Hsafe) as (Hfields & Hcomma & _).
  change (join "," (csv_fields entry)) with (join (String comma "") (csv_fields entry)).
  rewrite split_join by (done || by rewrite Hfields).
  rewrite Hfields. cbn [fmap list_fmap]. rewrite !trim_quoted.
  cbn [row_loop lookup list_lookup or_string quoted is_empty].
  rewrite !assign_key by reflexivity.
  unfold csvToEntry, quoted_entry.
  rewrite lookup_insert_eq.
  do 4 (rewrite lookup_insert_ne by done). rewrite lookup_insert_eq.
  do 3 (rewrite lookup_insert_ne by done). rewrite lookup_insert_eq.
  do 2 (rewrite lookup_insert_ne by done). rewrite lookup_insert_eq.
  do 1 (rewrite lookup_insert_ne by done). rewrite lookup_insert_eq.
  cbn [or_string is_empty].
  destruct (JSON_parse _); reflexivity.
Qed.

Lemma csvToEntries_exported rows :
  forallb round_trip_safe rows = true →
  csvToEntries JSON_parse
    ((fun line => row_loop (trim <$> split comma line) 0
                    ["type"; "title"; "content"; "url"; "metadata"] ∅)
       <$> ((fun entry => join "," (csv_fields entry)) <$> rows))
  = mapC (quoted_entry JSON_parse) rows.
Proof.
  unfold csvToEntries. induction rows as [|entry rows IH]; [done|].
  cbn [forallb]. intros [Hsafe Hrest]%andb_true_iff.
  cbn [fmap list_fmap mapC]. rewrite (csvToEntry_exported entry Hsafe).
  fold (@fmap list _ _ _ (fun entry => join "," (csv_fields entry)) rows).
  cbn [fmap] in IH. by rewrite (IH Hrest).
Qed.

(** C4, amended.  For a database that holds at least one entry, all of them
    safe (no comma and no line feed in any field, no double quote in the
    title and the content), export by [exportAsCSV] followed by [parseCSV]
    and [csvToEntries] gives one entry for each stored entry, in order,
    whose [type], [title], [content] and [url] are the stored texts between
    the double quotes of the export, not the stored texts, and whose
    metadata is what [JSON.parse] makes of the quoted metadata text; it
    throws when [JSON.parse] rejects that text. *)
Theorem csv_round_trip_quotes_fields (db : Driver Store) (userId : nat)
    (store : Store) (rows : list StoredEntry) :
  db_select db store = Normal rows →
  (0 < length rows)%nat →
  forallb round_trip_safe rows = true →
  roundTrip JSON_parse (Some db) userId store
  = mapC (quoted_entry JSON_parse) rows.
Proof.
  intros Hselect Hrows Hsafe. unfold roundTrip, exportAsCSV. rewrite Hselect.
  cbn [mbind Completion_bind].
  destruct (Nat.eqb_spec (length rows) 0) as [Hzero|_]; [lia|].
  change ("type,title,content,url,metadata" +:+ NL)
    with (join NL ["type,title,content,url,metadata"] +:+ NL).
  rewrite export_text by done. cbn [mbind Completion_bind]. unfold parseCSV.
  rewrite lines_of_joined.
  - destruct rows as [|entry rows]; [cbn in Hrows; lia|].
    cbn [fmap list_fmap app length Nat.ltb Nat.leb lookup list_lookup default
         from_option id drop].
    rewrite export_headers. cbn [mbind Completion_bind].
    apply (csvToEntries_exported (entry :: rows) Hsafe).
  - done.
  - cbn [app forallb]. apply andb_true_iff. split; [reflexivity|].
    clear Hselect Hrows. induction rows as [|entry rows IH]; [done|].
    cbn [forallb] in Hsafe. apply andb_true_iff in Hsafe as [Hentry Hrest].
    cbn [fmap list_fmap forallb].
    destruct (csv_fields_safe entry Hentry) as (_ & _ & ->). by apply IH.
  - cbn [app forallb]. apply andb_true_iff. split; [reflexivity|].
    clear. induction rows as [|entry rows IH]; [done|].
    cbn [fmap list_fmap forallb]. unfold csv_fields at 1. cbn [join].
    by rewrite not_blank_quoted.
Qed.

(** ** Further properties of the specification *)

(** X1.  P5 of the specification.  Without a database handle, and with a table
    that holds no entry, [exportAsCSV] returns the empty text and
    [exportAsJSON] the text of the empty array. *)
Theorem export_of_nothing (userId : nat) (store : Store) :
  (exportAsCSV (Store := Store) None userId store = Normal ""
   ∧ exportAsJSON JSON_parse JSON_stringify (Store := Store) None userId store
     = Normal "[]")
  ∧ (∀ db : Driver Store,
       db_select db store = Normal [] →
       exportAsCSV (Some db) userId store = Normal ""
       ∧ exportAsJSON JSON_parse JSON_stringify (Some db) userId store = Normal "[]").
Proof.
  split; [split; reflexivity|].
  intros db Hselect. unfold exportAsCSV, exportAsJSON. rewrite Hselect.
  split; reflexivity.
Qed.

Lemma import_loop_errors (db : Driver Store) userId valid entries :
  ∀ i state,
    ∃ more,
      errors (import_loop JSON_stringify db userId valid i entries state).1
      = (errors state.1 ++ more)%list.
Proof.
  induction entries as [|entry entries IH]; intros i [result store];
    cbn [import_loop].
  - exists []. by rewrite app_nil_r.
  - destruct (IH (S i) (import_entry JSON_stringify db userId valid i entry (result, store)))
      as [more ->].
    unfold import_entry. destruct (negb (bool_decide (i ∈ valid))); [by exists more|].
    destruct (db_insert db _ store) as [store' [thrown|]]; cbn; [|by exists more].
    unfold push. rewrite <- app_assoc. eauto.
Qed.

(** Section 4.5 of the specification: with a database, the errors of the
    result of [importEntries] start with all the records of
    [validateEntries], in order; the loop only appends to them. *)
Theorem all_violations_reported (db : Driver Store) (userId : nat)
    (entries : list ImportEntry) (store : Store) :
  ∃ more,
    errors (importEntries' (Some db) userId entries store).1
    = ((as_row_error <$> validateEntries entries) ++ more)%list.
Proof.
  unfold importEntries.
  match goal with |- context [import_loop _ db userId ?v 0 entries ?st] =>
    destruct (import_loop_errors db userId v entries 0 st) as [more Hmore];
    destruct (import_loop JSON_stringify db userId v 0 entries st) as [result store']
  end.
  exists more. exact Hmore.
Qed.

End Properties.

(** * Further properties of the service *)

Section Coverage.

Local Open Scope nat_scope.

Variable JSON_parse : string -> Completion JSValue.
Variable JSON_stringify : JSValue -> nat -> string.
Variable Number_toString : spec_float -> string.
Variable TypeError_message : string -> string.
Variable Store : Type.

Local Abbreviation importEntries' := (importEntries JSON_stringify (Store := Store)).
Local Abbreviation importFromCSV' := (importFromCSV JSON_parse JSON_stringify (Store := Store)).
Local Abbreviation importFromJSON' :=
  (importFromJSON JSON_parse JSON_stringify Number_toString TypeError_message
     (Store := Store)).
Local Abbreviation untyped_importEntries :=
  (Untyped.importEntries JSON_stringify Number_toString TypeError_message
     (Store := Store)).
Local Abbreviation untyped_import_loop :=
  (Untyped.import_loop JSON_stringify TypeError_message (Store := Store)).
Local Abbreviation untyped_validateEntries :=
  (Untyped.validateEntries Number_toString TypeError_message).

(** ** The records of [validateEntries] *)

Lemma filter_nil_existsb {A : Type} (f : A → bool) (xs : list A) :
  List.filter f xs = [] ↔ existsb f xs = false.
Proof.
  induction xs as [|x xs IH]; cbn; [done|].
  destruct (f x); cbn; [split; discriminate | exact IH].
Qed.

Lemma valid_entry_violations i entry :
  valid_entry entry = true ↔ violations i entry = [].
Proof.
  unfold valid_entry, violations.
  induction rules as [|r rs IH]; cbn; [done|].
  destruct (violates r entry); cbn; [split; discriminate | exact IH].
Qed.

(** A missing type and an invalid type exclude each other, so an entry has
    four records at most. *)
Lemma violations_at_most_four i entry : length (violations i entry) ≤ 4.
Proof.
  unfold violations, rules. rewrite length_fmap. cbn [List.filter violates].
  destruct entry as [[ty|] ti co u md]; cbn [type falsy].
  - destruct (is_empty ty); cbn [negb andb];
      repeat match goal with
             | |- context [if ?b then _ else _] => destruct b
             end; cbn; lia.
  - repeat match goal with
           | |- context [if ?b then _ else _] => destruct b
           end; cbn; lia.
Qed.

Lemma violations_index i entry e : e ∈ violations i entry → index e = i.
Proof.
  unfold violations. intros (r & -> & _)%list_elem_of_fmap. reflexivity.
Qed.

Lemma violations_from_bounds entries :
  ∀ k e, e ∈ violations_from k entries → k ≤ index e < k + length entries.
Proof.
  induction entries as [|entry entries IH]; intros k e; cbn [violations_from length].
  - by intros ?%elem_of_nil.
  - intros [He|He]%elem_of_app.
    + apply violations_index in He. lia.
    + apply IH in He. lia.
Qed.

Lemma violations_from_length entries :
  ∀ k, length (violations_from k entries) ≤ 4 * length entries.
Proof.
  induction entries as [|entry entries IH]; intros k; cbn [violations_from length]; [lia|].
  rewrite length_app. pose proof (violations_at_most_four k entry).
  pose proof (IH (S k)). lia.
Qed.

Lemma violations_from_nil entries :
  ∀ k, violations_from k entries = [] ↔ forallb valid_entry entries = true.
Proof.
  induction entries as [|entry entries IH]; intros k; cbn [violations_from forallb]; [done|].
  rewrite andb_true_iff, (valid_entry_violations k entry), <- (IH (S k)).
  split.
  - intros H. by apply app_eq_nil in H.
  - intros [-> ->]. reflexivity.
Qed.

Lemma validateEntries_violations entries :
  validateEntries entries = violations_from 0 entries.
Proof. unfold validateEntries. by rewrite validate_loop_violations. Qed.

Lemma validateEntries_bounds_aux (entries : list ImportEntry) :
  (∀ e, e ∈ validateEntries entries → index e < length entries)
  ∧ length (validateEntries entries) ≤ 4 * length entries.
Proof.
  rewrite validateEntries_violations. split.
  - intros e He. apply violations_from_bounds in He. lia.
  - apply violations_from_length.
Qed.

(** X6.  Every record of [validateEntries] names an index of the sequence, and
    there are at most four records for each entry. *)
Theorem validateEntries_bounds (entries : list ImportEntry) :
  (∀ e, e ∈ validateEntries entries → index e < length entries)
  ∧ length (validateEntries entries) ≤ 4 * length entries.
Proof.
  rewrite validateEntries_violations. split.
  - intros e He. apply violations_from_bounds in He. lia.
  - apply violations_from_length.
Qed.

Lemma validateEntries_nil_iff_all_valid_aux entries :
  validateEntries entries = [] ↔ forallb valid_entry entries = true.
Proof. rewrite validateEntries_violations. apply violations_from_nil. Qed.

(** X7.  [validateEntries] reports nothing exactly when every entry has a type
    of [validTypes], a title and a content that are not blank, and a title
    of 255 characters at most. *)
Theorem validateEntries_nil_iff_all_valid (entries : list ImportEntry) :
  validateEntries entries = [] ↔ forallb valid_entry entries = true.
Proof. apply validateEntries_nil_iff_all_valid_aux. Qed.

(** ** The set of valid indices *)

Lemma validIndices_elem errs n i :
  i ∈ validIndices errs n ↔ i < n ∧ errors_at i errs = [].
Proof.
  unfold validIndices, errors_at.
  rewrite elem_of_list_to_set, list_elem_of_In, List.filter_In, List.in_seq.
  rewrite filter_nil_existsb, negb_true_iff. intuition lia.
Qed.

Lemma valid_indices_are_valid_entries_aux entries i entry :
  entries !! i = Some entry →
  (i ∈ validIndices (validateEntries entries) (length entries)
   ↔ valid_entry entry = true).
Proof.
  intros Hlookup. rewrite validIndices_elem, validateEntries_violations.
  pose proof (errors_at_violations_from entries 0 i entry Hlookup) as Hat.
  cbn [Nat.add] in Hat. rewrite Hat, (valid_entry_violations i entry).
  apply lookup_lt_Some in Hlookup. intuition.
Qed.

(** X3.  The index coupling of validator and orchestrator: the index of an entry
    is in the set [validIndices] of [importEntries] exactly when the entry
    violates no rule, and no index outside the sequence is in the set. *)
Theorem valid_indices_are_valid_entries (entries : list ImportEntry) :
  (∀ i entry,
     entries !! i = Some entry →
     (i ∈ validIndices (validateEntries entries) (length entries)
      ↔ valid_entry entry = true))
  ∧ (∀ i, length entries ≤ i →
          i ∉ validIndices (validateEntries entries) (length entries)).
Proof.
  split.
  - apply valid_indices_are_valid_entries_aux.
  - intros i Hi. rewrite validIndices_elem. lia.
Qed.

Lemma valid_index_decided entries i entry :
  entries !! i = Some entry →
  bool_decide (i ∈ validIndices (validateEntries entries) (length entries))
  = valid_entry entry.
Proof.
  intros Hlookup.
  destruct (valid_indices_are_valid_entries_aux entries i entry Hlookup) as [H1 H2].
  destruct (valid_entry entry).
  - apply bool_decide_eq_true. by apply H2.
  - apply bool_decide_eq_false. intros Hin. by apply H1 in Hin.
Qed.

(** ** What the loop of [importEntries] persists and counts *)

(** [db.insert] on the values of an entry, keeping the contents only. *)
Local Abbreviation insert_step db userId :=
  (fun (store : Store) (entry : ImportEntry) =>
     (db_insert db (insert_values JSON_stringify userId entry) store).1).

Lemma invalid_rows_cons valid i n :
  invalid_rows valid i (S n)
  = (if bool_decide (i ∈ valid) then 0 else 1) + invalid_rows valid (S i) n.
Proof.
  unfold invalid_rows. cbn [seq List.filter].
  by destruct (bool_decide (i ∈ valid)).
Qed.

(** The loop appends one error for each rejected insert and nothing else;
    it skips the rows that are not valid and the rows whose insert is
    rejected. *)
Lemma import_loop_run (db : Driver Store) userId valid entries :
  ∀ i result store,
    ∃ failures,
      errors (import_loop JSON_stringify db userId valid i entries (result, store)).1
      = (errors result ++ failures)%list
      ∧ skippedRows (import_loop JSON_stringify db userId valid i entries (result, store)).1
        = skippedRows result + invalid_rows valid i (length entries) + length failures.
Proof.
  induction entries as [|entry entries IH]; intros i result store;
    cbn [import_loop length].
  - exists []. rewrite app_nil_r. cbn. unfold invalid_rows. cbn. split; [done|lia].
  - rewrite invalid_rows_cons. unfold import_entry.
    destruct (bool_decide (i ∈ valid)); cbn [negb].
    + destruct (db_insert db _ store) as [store' [thrown|]].
      * destruct (IH (S i) (skip_row (push_error result
                    {| rowIndex := i;
                       rowError := "Database insert failed: " +:+ error_message thrown |}))
                    store') as (failures & -> & ->).
        eexists (_ :: failures). cbn. unfold push. rewrite <- app_assoc.
        split; [reflexivity | cbn; lia].
      * destruct (IH (S i) (import_row result) store') as (failures & -> & ->).
        exists failures. cbn. split; [reflexivity | lia].
    + destruct (IH (S i) (skip_row result) store) as (failures & -> & ->).
      exists failures. cbn. split; [reflexivity | lia].
Qed.

(** The contents after the loop: the inserts of the valid entries, one
    after the other; an entry that is not valid reaches no insert. *)
Lemma import_loop_store (db : Driver Store) userId valid entries :
  ∀ i result store,
    (∀ j entry, entries !! j = Some entry →
                bool_decide (i + j ∈ valid) = valid_entry entry) →
    (import_loop JSON_stringify db userId valid i entries (result, store)).2
    = foldl (insert_step db userId) store (List.filter valid_entry entries).
Proof.
  induction entries as [|entry entries IH]; intros i result store Hvalid;
    cbn [import_loop List.filter]; [reflexivity|].
  pose proof (Hvalid 0 entry eq_refl) as Hentry. rewrite Nat.add_0_r in Hentry.
  assert (Hrest : ∀ j e, entries !! j = Some e →
                         bool_decide (S i + j ∈ valid) = valid_entry e).
  { intros j e Hj. replace (S i + j) with (i + S j) by lia. by apply Hvalid. }
  unfold import_entry. rewrite Hentry. destruct (valid_entry entry); cbn [negb].
  - cbn [foldl]. destruct (db_insert db _ store) as [store' [thrown|]];
      rewrite (IH (S i) _ store' Hrest); reflexivity.
  - by rewrite (IH (S i) _ store Hrest).
Qed.

Lemma invalid_rows_entries valid entries :
  ∀ i,
    (∀ j entry, entries !! j = Some entry →
                bool_decide (i + j ∈ valid) = valid_entry entry) →
    invalid_rows valid i (length entries)
    = length (List.filter (fun entry => negb (valid_entry entry)) entries).
Proof.
  induction entries as [|entry entries IH]; intros i Hvalid; [reflexivity|].
  cbn [length List.filter]. rewrite invalid_rows_cons.
  pose proof (Hvalid 0 entry eq_refl) as Hentry. rewrite Nat.add_0_r in Hentry.
  rewrite Hentry, (IH (S i)).
  - by destruct (valid_entry entry).
  - intros j e Hj. replace (S i + j) with (i + S j) by lia. by apply Hvalid.
Qed.

Lemma filter_partition_length {A : Type} (f : A → bool) (xs : list A) :
  length (List.filter f xs) + length (List.filter (fun x => negb (f x)) xs)
  = length xs.
Proof.
  induction xs as [|x xs IH]; cbn; [done|]. destruct (f x); cbn; lia.
Qed.

Lemma importEntries_run (db : Driver Store) (userId : nat)
    (entries : list ImportEntry) (store : Store) :
  (importEntries' (Some db) userId entries store).2
  = foldl (insert_step db userId) store (List.filter valid_entry entries)
  ∧ totalRows (importEntries' (Some db) userId entries store).1 = length entries
  ∧ ∃ failures,
      errors (importEntries' (Some db) userId entries store).1
      = ((as_row_error <$> validateEntries entries) ++ failures)%list
      ∧ skippedRows (importEntries' (Some db) userId entries store).1
        = length (List.filter (fun entry => negb (valid_entry entry)) entries)
          + length failures
      ∧ importedRows (importEntries' (Some db) userId entries store).1
        + length failures
        = length (List.filter valid_entry entries).
Proof.
  pose proof (importEntries_counts JSON_stringify Store (Some db) userId entries store)
    as Hcounts.
  assert (Htotal : totalRows (importEntries' (Some db) userId entries store).1
                   = length entries).
  { unfold importEntries.
    match goal with |- context [import_loop _ db userId ?v 0 entries ?st] =>
      pose proof (proj2 (import_loop_counts JSON_stringify Store db userId v entries 0 st));
      destruct (import_loop JSON_stringify db userId v 0 entries st)
    end. done. }
  revert Hcounts Htotal. unfold importEntries.
  match goal with |- context [import_loop _ db userId ?v 0 entries (?r, store)] =>
    pose proof (import_loop_store db userId v entries 0 r store
                  (valid_index_decided entries)) as Hstore;
    pose proof (invalid_rows_entries v entries 0 (valid_index_decided entries)) as Hinv;
    destruct (import_loop_run db userId v entries 0 r store) as (failures & Herr & Hskip);
    destruct (import_loop JSON_stringify db userId v 0 entries (r, store))
      as [result store']
  end.
  cbn [fst snd success totalRows importedRows skippedRows errors] in *.
  intros Hcounts Htotal. split; [exact Hstore|]. split; [exact Htotal|].
  exists failures. split; [exact Herr|].
  pose proof (filter_partition_length valid_entry entries). lia.
Qed.

(** The rows of [valid_rows] are the valid entries, each with its index. *)
Lemma valid_rows_elem entries :
  ∀ k i entry,
    (i, entry) ∈ valid_rows k entries
    ↔ ∃ j, i = k + j ∧ entries !! j = Some entry ∧ valid_entry entry = true.
Proof.
  induction entries as [|entry' entries IH]; intros k i entry; cbn [valid_rows].
  - split; [by intros ?%elem_of_nil | by intros (j & _ & ? & _)].
  - assert (Hrest : (i, entry) ∈ valid_rows (S k) entries
                    ↔ ∃ j, i = k + S j ∧ entries !! j = Some entry
                           ∧ valid_entry entry = true).
    { rewrite IH. split; intros (j & -> & ? & ?); exists j; split_and!; (lia || done). }
    destruct (valid_entry entry') eqn:Hentry'.
    + rewrite elem_of_cons, Hrest. split.
      * intros [[= -> ->]|(j & -> & ? & ?)].
        -- exists 0. split_and!; (lia || done).
        -- exists (S j). done.
      * intros ([|j] & -> & Hj & Hv); cbn in Hj.
        -- left. injection Hj as ->. by rewrite Nat.add_0_r.
        -- right. eauto.
    + rewrite Hrest. split.
      * intros (j & -> & ? & ?). exists (S j). done.
      * intros ([|j] & -> & Hj & Hv); cbn in Hj; [congruence | eauto].
Qed.

Lemma valid_rows_entries entries :
  ∀ k, (valid_rows k entries).*2 = List.filter valid_entry entries.
Proof.
  induction entries as [|entry entries IH]; intros k; cbn [valid_rows List.filter];
    [reflexivity|].
  destruct (valid_entry entry); cbn [fmap list_fmap snd]; by rewrite IH.
Qed.

(** The loop of [importEntries] as the sequence of the inserts of the valid
    rows: it records the rejected ones, counts the accepted ones, and skips
    the rejected ones and the rows that are not valid. *)
Lemma import_loop_outcomes (db : Driver Store) userId valid entries :
  ∀ i result store,
    (∀ j entry, entries !! j = Some entry →
                bool_decide (i + j ∈ valid) = valid_entry entry) →
    errors (import_loop JSON_stringify db userId valid i entries (result, store)).1
    = (errors result
       ++ omap failure
            (insert_outcomes JSON_stringify db userId (valid_rows i entries) store))%list
    ∧ importedRows (import_loop JSON_stringify db userId valid i entries (result, store)).1
      = importedRows result
        + length (List.filter accepted
                    (insert_outcomes JSON_stringify db userId (valid_rows i entries) store))
    ∧ skippedRows (import_loop JSON_stringify db userId valid i entries (result, store)).1
      = skippedRows result
        + length (List.filter (fun entry => negb (valid_entry entry)) entries)
        + length (omap failure
                    (insert_outcomes JSON_stringify db userId (valid_rows i entries) store)).
Proof.
  induction entries as [|entry entries IH]; intros i result store Hvalid;
    cbn [import_loop valid_rows List.filter].
  - cbn. rewrite app_nil_r. split_and!; lia || done.
  - pose proof (Hvalid 0 entry eq_refl) as Hentry. rewrite Nat.add_0_r in Hentry.
    assert (Hrest : ∀ j e, entries !! j = Some e →
                           bool_decide (S i + j ∈ valid) = valid_entry e).
    { intros j e Hj. replace (S i + j) with (i + S j) by lia. by apply Hvalid. }
    unfold import_entry. rewrite Hentry. destruct (valid_entry entry); cbn [negb].
    + cbn [insert_outcomes].
      destruct (db_insert db (insert_values JSON_stringify userId entry) store)
        as [store' [thrown|]]; cbn [fst snd].
      * destruct (IH (S i) (skip_row (push_error result
                    {| rowIndex := i;
                       rowError := "Database insert failed: " +:+ error_message thrown |}))
                    store' Hrest) as (-> & -> & ->).
        cbn. unfold push. rewrite <- app_assoc. split_and!; (lia || done).
      * destruct (IH (S i) (import_row result) store' Hrest) as (-> & -> & ->).
        cbn. split_and!; (lia || done).
    + destruct (IH (S i) (skip_row result) store Hrest) as (-> & -> & ->).
      cbn. split_and!; (lia || done).
Qed.

(** X2.  With a database, [importEntries] passes to [db.insert] the valid
    entries, in the order of the input, once each, and no other entry: the
    contents afterwards are those after these inserts, and the outcomes of
    these inserts, one after the other, give the rest of the result.  The
    errors are the records of [validateEntries] followed by one record for
    each rejected insert, in order, with the index of its entry in the batch
    and the message of what the insert threw; [importedRows] is the number
    of accepted inserts; [skippedRows] is the number of entries that are not
    valid plus the number of rejected inserts.  The valid rows are the
    entries of the batch that violate no rule, in the order of the batch,
    each with its index. *)
Theorem only_valid_entries_are_persisted (db : Driver Store) (userId : nat)
    (entries : list ImportEntry) (store : Store) :
  (importEntries' (Some db) userId entries store).2
  = foldl (insert_step db userId) store (List.filter valid_entry entries)
  ∧ errors (importEntries' (Some db) userId entries store).1
    = ((as_row_error <$> validateEntries entries)
       ++ omap failure
            (insert_outcomes JSON_stringify db userId (valid_rows 0 entries) store))%list
  ∧ importedRows (importEntries' (Some db) userId entries store).1
    = length (List.filter accepted
                (insert_outcomes JSON_stringify db userId (valid_rows 0 entries) store))
  ∧ skippedRows (importEntries' (Some db) userId entries store).1
    = length (List.filter (fun entry => negb (valid_entry entry)) entries)
      + length (omap failure
                  (insert_outcomes JSON_stringify db userId (valid_rows 0 entries) store))
  ∧ (valid_rows 0 entries).*2 = List.filter valid_entry entries
  ∧ (∀ i entry,
       (i, entry) ∈ valid_rows 0 entries
       ↔ entries !! i = Some entry ∧ valid_entry entry = true).
Proof.
  destruct (importEntries_run db userId entries store) as (Hstore & _ & _).
  split; [exact Hstore|]. unfold importEntries.
  match goal with |- context [import_loop _ db userId ?v 0 entries (?r, store)] =>
    destruct (import_loop_outcomes db userId v entries 0 r store
                (valid_index_decided entries)) as (Herr & Himp & Hskip);
    destruct (import_loop JSON_stringify db userId v 0 entries (r, store))
      as [result store']
  end.
  cbn [fst snd success totalRows importedRows skippedRows errors] in *.
  split; [exact Herr|]. split; [exact Himp|]. split; [exact Hskip|].
  split; [apply valid_rows_entries|].
  intros i entry. rewrite valid_rows_elem. split.
  - intros (j & -> & ? & ?). done.
  - intros [? ?]. exists i. done.
Qed.

(** ** Success *)

Lemma filter_negb_none {A : Type} (f : A → bool) (xs : list A) :
  length (List.filter (fun x => negb (f x)) xs) = 0 ↔ forallb f xs = true.
Proof.
  induction xs as [|x xs IH]; cbn; [done|].
  destruct (f x); cbn; [exact IH | split; [lia | discriminate]].
Qed.

Lemma importEntries_success_iff (db : option (Driver Store)) userId entries store :
  success (importEntries' db userId entries store).1 = true
  ↔ errors (importEntries' db userId entries store).1 = [].
Proof.
  destruct db as [db|]; [|by cbn].
  rewrite (importEntries_success JSON_stringify Store (Some db)).
  destruct (importEntries_run db userId entries store)
    as (_ & _ & failures & -> & -> & _).
  rewrite bool_decide_eq_true.
  assert (Hnone : length (List.filter (fun entry => negb (valid_entry entry)) entries) = 0
                  ↔ as_row_error <$> validateEntries entries = []).
  { rewrite filter_negb_none, <- validateEntries_nil_iff_all_valid_aux.
    split; [by intros ->|]. by intros ?%fmap_nil_inv. }
  split.
  - intros [Hinvalid ->%nil_length_inv]%Nat.eq_add_0.
    rewrite app_nil_r. by apply Hnone.
  - intros [HE ->]%app_eq_nil. apply Hnone in HE. rewrite HE. reflexivity.
Qed.

(** The records of [validateEntries] on values of any shape, when it
    returns, name indices of the array. *)
Lemma untyped_validate_entry_indices (P : nat → Prop) i entry errors errors' :
  P i → Forall (fun e => P (index e)) errors →
  Untyped.validate_entry Number_toString TypeError_message i entry errors
  = Normal errors' →
  Forall (fun e => P (index e)) errors'.
Proof.
  intros Hi Herrors. unfold Untyped.validate_entry.
  destruct (Untyped.get TypeError_message entry "type") as [ty|]; [|done].
  cbn [mbind Completion_bind].
  assert (Hpush : ∀ es text, Forall (fun e => P (index e)) es →
            Forall (fun e => P (index e)) (push es {| index := i; error := text |})).
  { intros es text Hes. unfold push. apply Forall_app. split; [done|].
    by constructor. }
  match goal with
  | |- context [mbind _ ?c] =>
      assert (Hfirst : ∀ es, c = Normal es → Forall (fun e => P (index e)) es);
      [|destruct c as [es|]; [specialize (Hfirst es eq_refl)|done]]
  end.
  { intros es. destruct (negb (truthy ty)); [intros [= <-]; by apply Hpush|].
    destruct (negb (Untyped.includes_value validTypes ty)); [|by intros [= <-]].
    destruct (Untyped.ToString Number_toString TypeError_message ty); [|done].
    cbn. intros [= <-]. by apply Hpush. }
  cbn [mbind Completion_bind].
  destruct (Untyped.get TypeError_message entry "title") as [ti|]; [|done].
  cbn [mbind Completion_bind].
  destruct (Untyped.text TypeError_message "entry.title.trim" ti) as [ti'|]; [|done].
  cbn [mbind Completion_bind].
  destruct (Untyped.get TypeError_message entry "content") as [co|]; [|done].
  cbn [mbind Completion_bind].
  destruct (Untyped.text TypeError_message "entry.content.trim" co) as [co'|]; [|done].
  cbn [mbind Completion_bind]. intros [= <-].
  destruct (Untyped.blank ti'), (Untyped.blank co'), (Untyped.too_long ti');
    repeat apply Hpush; done.
Qed.

Lemma untyped_validate_loop_indices entries :
  ∀ i errors errors',
    Forall (fun e => index e < i + length entries) errors →
    Untyped.validate_loop Number_toString TypeError_message i entries errors
    = Normal errors' →
    Forall (fun e => index e < i + length entries) errors'.
Proof.
  induction entries as [|entry entries IH]; intros i errors errors' Herrors;
    cbn [Untyped.validate_loop length].
  - by intros [= <-].
  - destruct (Untyped.validate_entry _ _ i entry errors) as [errors1|] eqn:Hentry;
      [|done].
    cbn [mbind Completion_bind]. intros Hloop.
    replace (i + S (length entries)) with (S i + length entries) by lia.
    apply (IH (S i) errors1 errors'); [|done].
    replace (S i + length entries) with (i + S (length entries)) by lia.
    apply (untyped_validate_entry_indices
             (fun k => k < i + S (length entries)) i entry errors errors1);
      [lia | done | done].
Qed.

Lemma untyped_validateEntries_bounds entries errors :
  untyped_validateEntries entries = Normal errors →
  ∀ e, e ∈ errors → index e < length entries.
Proof.
  unfold Untyped.validateEntries. intros Hloop.
  apply Forall_forall.
  apply (untyped_validate_loop_indices entries 0 [] errors); [constructor | done].
Qed.

(** No row is skipped for its validation exactly when the validation
    reported nothing, given that its records name indices below [n]. *)
Lemma invalid_rows_none errs n :
  (∀ e, e ∈ errs → index e < n) →
  invalid_rows (validIndices errs n) 0 n = 0 ↔ errs = [].
Proof.
  intros Hbound. unfold invalid_rows.
  rewrite (filter_negb_none (fun j => bool_decide (j ∈ validIndices errs n))).
  rewrite forallb_forall. split.
  - intros Hall. destruct errs as [|e errs]; [done|].
    assert (He : e ∈ e :: errs) by left.
    specialize (Hall (index e)). rewrite List.in_seq in Hall.
    specialize (Hall ltac:(pose proof (Hbound e He); lia)).
    apply bool_decide_eq_true, validIndices_elem in Hall as [_ Hnone].
    unfold errors_at in Hnone. cbn [List.filter] in Hnone.
    by rewrite Nat.eqb_refl in Hnone.
  - intros -> j Hj%List.in_seq. apply bool_decide_eq_true, validIndices_elem.
    split; [lia | done].
Qed.

Lemma untyped_import_loop_run (db : Driver Store) userId valid entries :
  ∀ i result store,
    ∃ failures,
      errors (untyped_import_loop db userId valid i entries (result, store)).1
      = (errors result ++ failures)%list
      ∧ skippedRows (untyped_import_loop db userId valid i entries (result, store)).1
        = skippedRows result + invalid_rows valid i (length entries) + length failures.
Proof.
  induction entries as [|entry entries IH]; intros i result store;
    cbn [Untyped.import_loop length].
  - exists []. rewrite app_nil_r. cbn. unfold invalid_rows. cbn. split; [done|lia].
  - rewrite invalid_rows_cons. unfold Untyped.import_entry.
    destruct (bool_decide (i ∈ valid)); cbn [negb].
    + assert (Hfailed : ∀ thrown store',
          ∃ failures,
            errors (untyped_import_loop db userId valid (S i) entries
                      (Untyped.insert_failed result i thrown, store')).1
            = (errors result ++ failures)%list
            ∧ skippedRows (untyped_import_loop db userId valid (S i) entries
                             (Untyped.insert_failed result i thrown, store')).1
              = skippedRows result + (0 + invalid_rows valid (S i) (length entries))
                + length failures).
      { intros thrown store'.
        destruct (IH (S i) (Untyped.insert_failed result i thrown) store')
          as (failures & -> & ->).
        eexists (_ :: failures). cbn. unfold push. rewrite <- app_assoc.
        split; [reflexivity | cbn; lia]. }
      destruct (Untyped.insert_values _ _ userId entry) as [values|thrown];
        [|apply Hfailed].
      destruct (db_insert db values store) as [store' [thrown|]]; [apply Hfailed|].
      destruct (IH (S i) (import_row result) store') as (failures & -> & ->).
      exists failures. cbn. split; [reflexivity | lia].
    + destruct (IH (S i) (skip_row result) store) as (failures & -> & ->).
      exists failures. cbn. split; [reflexivity | lia].
Qed.

Lemma untyped_importEntries_success_iff (db : option (Driver Store)) userId entries
    store result store' :
  untyped_importEntries db userId entries store = (Normal result, store') →
  success result = true ↔ errors result = [].
Proof.
  unfold Untyped.importEntries.
  destruct (Untyped.validateEntries _ _ entries) as [validationErrors|thrown] eqn:Hv;
    [|done].
  pose proof (untyped_validateEntries_bounds entries validationErrors Hv) as Hbound.
  destruct db as [db|]; [|by intros [= <- <-]].
  match goal with |- context [Untyped.import_loop _ _ db userId ?v 0 entries (?r, store)] =>
    destruct (untyped_import_loop_run db userId v entries 0 r store)
      as (failures & Herr & Hskip);
    destruct (Untyped.import_loop JSON_stringify TypeError_message db userId v 0 entries
                (r, store)) as [loop store'']
  end.
  intros [= <- <-]. cbn [fst success skippedRows errors] in *.
  rewrite Herr, Hskip, Nat.eqb_eq. cbn [Nat.add].
  pose proof (invalid_rows_none validationErrors (length entries) Hbound) as Hnone.
  split.
  - intros [Hinvalid ->%nil_length_inv]%Nat.eq_add_0.
    apply Hnone in Hinvalid as ->. reflexivity.
  - intros [HE%fmap_nil_inv ->]%app_eq_nil.
    apply Hnone in HE. rewrite HE. reflexivity.
Qed.

(** X5.  In every result of an import operation, [success] is [true] exactly
    when the list of errors is empty: the row loop, the missing database
    and the parse failures alike.  For [importFromJSON] these are all the
    results its promise is fulfilled with, whatever the items of the parsed
    array are; the last part is [importEntries] on values of any shape. *)
Theorem success_iff_no_errors (db : option (Driver Store)) (userId : nat)
    (store : Store) :
  (∀ entries,
      success (importEntries' db userId entries store).1 = true
      ↔ errors (importEntries' db userId entries store).1 = [])
  ∧ (∀ csvContent,
      success (importFromCSV' db userId csvContent store).1 = true
      ↔ errors (importFromCSV' db userId csvContent store).1 = [])
  ∧ (∀ jsonContent result store',
      importFromJSON' db userId jsonContent store = (Normal result, store') →
      (success result = true ↔ errors result = []))
  ∧ (∀ values result store',
      untyped_importEntries db userId values store = (Normal result, store') →
      (success result = true ↔ errors result = [])).
Proof.
  split; [|split; [|split]].
  - intros entries. apply importEntries_success_iff.
  - intros csvContent.
    destruct (importFromCSV_cases JSON_parse JSON_stringify Store db userId csvContent store)
      as [[t ->]|[es ->]]; [by cbn | apply importEntries_success_iff].
  - intros jsonContent result store'.
    destruct (importFromJSON_cases JSON_parse JSON_stringify Number_toString
                TypeError_message Store db userId jsonContent store)
      as [[t ->]|[es ->]].
    + intros [= <- <-]. by cbn.
    + apply (untyped_importEntries_success_iff db userId es store).
  - intros values.
    apply (untyped_importEntries_success_iff db userId values store).
Qed.

(** ** A valid batch and a database that accepts every insert *)

Lemma import_loop_accepting (db : Driver Store) userId valid entries :
  (∀ values store, (db_insert db values store).2 = None) →
  ∀ i result store,
    errors (import_loop JSON_stringify db userId valid i entries (result, store)).1
    = errors result.
Proof.
  intros Haccept. induction entries as [|entry entries IH]; intros i result store;
    cbn [import_loop]; [reflexivity|].
  unfold import_entry. destruct (negb (bool_decide (i ∈ valid))); [by rewrite IH|].
  pose proof (Haccept (insert_values JSON_stringify userId entry) store) as Hnone.
  destruct (db_insert db _ store) as [store' [thrown|]]; [discriminate|].
  by rewrite IH.
Qed.

(** X4.  When every entry is valid and the database accepts every insert, all
    entries are imported: [success], no error, [importedRows = totalRows],
    and the contents are those after the inserts of all the entries, in
    order. *)
Theorem valid_batch_imports_fully (db : Driver Store) (userId : nat)
    (entries : list ImportEntry) (store : Store) :
  forallb valid_entry entries = true →
  (∀ values store, (db_insert db values store).2 = None) →
  importEntries' (Some db) userId entries store
  = ({| success := true; totalRows := length entries;
        importedRows := length entries; skippedRows := 0; errors := [] |},
     foldl (insert_step db userId) store entries).
Proof.
  intros Hvalid Haccept.
  pose proof (importEntries_success JSON_stringify Store (Some db) userId entries store)
    as Hsuccess.
  destruct (importEntries_run db userId entries store)
    as (Hstore & Htotal & failures & Herr & Hskip & Himp).
  assert (Herrors : errors (importEntries' (Some db) userId entries store).1
                    = as_row_error <$> validateEntries entries).
  { unfold importEntries.
    match goal with |- context [import_loop _ db userId ?v 0 entries ?st] =>
      pose proof (import_loop_accepting db userId v entries Haccept 0 st.1 st.2) as H;
      cbn [fst snd] in H;
      destruct (import_loop JSON_stringify db userId v 0 entries st)
    end. exact H. }
  rewrite Herrors in Herr.
  assert (failures = []) as ->.
  { apply (f_equal length) in Herr. rewrite length_app in Herr.
    apply nil_length_inv. lia. }
  rewrite (proj2 (validateEntries_nil_iff_all_valid_aux entries) Hvalid) in Herrors.
  rewrite (filter_all _ _ Hvalid) in Hstore, Himp.
  rewrite (proj2 (filter_negb_none valid_entry entries) Hvalid) in Hskip.
  cbn [length] in Hskip, Himp. cbv zeta in Hsuccess. rewrite Hskip in Hsuccess.
  destruct (importEntries' (Some db) userId entries store) as [[sc tr ir sr er] st].
  cbn in *. subst. rewrite Nat.add_0_r in Himp. subst ir. reflexivity.
Qed.

(** ** The rows of [parseCSV] *)

Lemma row_loop_dom values headers :
  ∀ j (row : gmap string string),
    dom (row_loop values j headers row) = list_to_set (own_keys headers) ∪ dom row.
Proof.
  induction headers as [|h headers IH]; intros j row; cbn [row_loop].
  - unfold own_keys. cbn [List.filter]. by rewrite list_to_set_nil, (left_id_L ∅ (∪)).
  - rewrite IH. unfold assign, own_keys. cbn [List.filter].
    destruct (String.eqb h "__proto__"); cbn [negb]; [reflexivity|].
    rewrite dom_insert_L, list_to_set_cons.
    rewrite (assoc_L (∪)). f_equal. apply (comm_L (∪)).
Qed.

Lemma row_loop_other values headers h :
  h ∉ headers →
  ∀ j (row : gmap string string), row_loop values j headers row !! h = row !! h.
Proof.
  induction headers as [|h' headers IH]; intros Hnotin j row; cbn [row_loop]; [done|].
  apply not_elem_of_cons in Hnotin as [Hne Hnotin].
  rewrite IH by done. unfold assign.
  destruct (String.eqb h' "__proto__"); [done|]. by rewrite lookup_insert_ne.
Qed.

Lemma row_loop_lookup values headers :
  NoDup headers →
  ∀ j (row : gmap string string) k h,
    headers !! k = Some h →
    h ≠ "__proto__" →
    row_loop values j headers row !! h = Some (or_string (values !! (j + k)) "").
Proof.
  induction 1 as [|h' headers Hnotin Hnodup IH]; intros j row k h Hk Hh; [done|].
  cbn [row_loop]. destruct k as [|k]; cbn in Hk.
  - injection Hk as ->. rewrite row_loop_other by done.
    apply String.eqb_neq in Hh. rewrite (assign_key _ _ _ Hh).
    by rewrite lookup_insert_eq, Nat.add_0_r.
  - rewrite (IH (S j) _ k h Hk Hh). by replace (S j + k) with (j + S k) by lia.
Qed.

Lemma own_keys_proto headers : "__proto__" ∉ own_keys headers.
Proof.
  unfold own_keys. rewrite list_elem_of_In, List.filter_In. by intros [_ [=]].
Qed.

(** X8.  When [parseCSV] returns, there is one row for each line after the
    header.  The keys of a row are the names of the header, but for the
    name [__proto__], which is no key of any row: the assignment to that
    name creates no property.  When no name is repeated, the row maps every
    other name at position [j] to the trimmed field at position [j] of its
    line, and to the empty text when the line has no such field; the fields
    beyond the header are dropped. *)
Theorem parseCSV_rows (content : string) (rows : list (gmap string string)) :
  parseCSV content = Normal rows →
  length rows + 1 = length (lines_of content)
  ∧ ∀ k row,
      rows !! k = Some row →
      dom row = list_to_set (own_keys (csv_headers content))
      ∧ row !! "__proto__" = None
      ∧ ∃ line,
          lines_of content !! S k = Some line
          ∧ (NoDup (csv_headers content) →
             ∀ j h, csv_headers content !! j = Some h →
                    h ≠ "__proto__" →
                    row !! h = Some (or_string (csv_values line !! j) "")).
Proof.
  unfold parseCSV. fold (csv_headers content).
  destruct (Nat.ltb_spec (length (lines_of content)) 2) as [|Hlen]; [done|].
  intros [= <-]. split.
  - rewrite length_fmap, length_drop. lia.
  - intros k row Hrow. rewrite list_lookup_fmap, lookup_drop in Hrow.
    destruct (lines_of content !! (1 + k)) as [line|] eqn:Hline; [|done].
    injection Hrow as <-.
    assert (Hdom : dom (row_loop (trim <$> split comma line) 0 (csv_headers content) ∅)
                   = list_to_set (own_keys (csv_headers content))).
    { by rewrite row_loop_dom, dom_empty_L, (right_id_L ∅ (∪)). }
    split; [exact Hdom|]. split.
    + apply not_elem_of_dom. rewrite Hdom, elem_of_list_to_set.
      apply own_keys_proto.
    + exists line. split; [done|]. intros Hnodup j h Hj Hh.
      by rewrite (row_loop_lookup _ _ Hnodup 0 ∅ j h Hj Hh).
Qed.

(** ** The entries of [csvToEntries] *)

Lemma mapC_Forall {A B : Type} (f : A → Completion B) (P : B → Prop) xs :
  (∀ x y, f x = Normal y → P y) →
  ∀ ys, mapC f xs = Normal ys → length ys = length xs ∧ Forall P ys.
Proof.
  intros HP. induction xs as [|x xs IH]; intros ys; cbn [mapC].
  - intros [= <-]. split; [done | constructor].
  - destruct (f x) as [y|t] eqn:Hx; [|done]. cbn.
    destruct (mapC f xs) as [ys'|t]; [|done]. cbn. intros [= <-].
    destruct (IH ys' eq_refl) as [Hlen Hall]. split; [cbn; lia|].
    constructor; [by eapply HP | done].
Qed.

Lemma csvToEntry_defaults row entry :
  csvToEntry JSON_parse row = Normal entry →
  violates TypeMissing entry = false
  ∧ is_Some (title entry) ∧ is_Some (content entry) ∧ url entry = row !! "url".
Proof.
  unfold csvToEntry.
  destruct (match row !! "metadata" with Some _ => _ | None => _ end) as [md|t]; [|done].
  cbn. intros [= <-]. cbn. split; [|eauto].
  unfold or_string. destruct (row !! "type") as [ty|]; [|done].
  by destruct (is_empty ty) eqn:Hty.
Qed.

Lemma violations_from_elem entries :
  ∀ k e, e ∈ violations_from k entries →
         ∃ entry r, entry ∈ entries ∧ violates r entry = true
                    ∧ error e = rule_error r entry.
Proof.
  induction entries as [|entry entries IH]; intros k e; cbn [violations_from].
  - by intros ?%elem_of_nil.
  - intros [He|He]%elem_of_app.
    + unfold violations in He. apply list_elem_of_fmap in He as (r & -> & Hr).
      apply list_elem_of_In, List.filter_In in Hr as [_ Hr].
      exists entry, r. split; [left|done].
    + destruct (IH _ _ He) as (entry' & r & Hin & Hr & Herr).
      exists entry', r. split; [by right|done].
Qed.

(** X9.  When [csvToEntries] returns, there is one entry for each row, with a
    type that is not empty ([website] when the row has none), a title and a
    content; so the validation of entries read from CSV never reports a
    missing type. *)
Theorem csv_entries_have_a_type (rows : list (gmap string string))
    (entries : list ImportEntry) :
  csvToEntries JSON_parse rows = Normal entries →
  length entries = length rows
  ∧ (∀ entry, entry ∈ entries →
       violates TypeMissing entry = false
       ∧ is_Some (title entry) ∧ is_Some (content entry))
  ∧ (∀ e, e ∈ validateEntries entries → error e ≠ "Missing type field").
Proof.
  intros Hmap.
  destruct (mapC_Forall (csvToEntry JSON_parse)
              (fun entry => violates TypeMissing entry = false
                            ∧ is_Some (title entry) ∧ is_Some (content entry))
              rows) with (ys := entries) as [Hlen Hall]; [|exact Hmap|].
  { intros row entry Hrow.
    destruct (csvToEntry_defaults row entry Hrow) as (? & ? & ? & _). done. }
  rewrite Forall_forall in Hall. split; [exact Hlen|]. split; [exact Hall|].
  intros e He. rewrite validateEntries_violations in He.
  destruct (violations_from_elem _ _ _ He) as (entry & r & Hin & Hr & ->).
  destruct (Hall entry Hin) as (Hty & _).
  destruct r; cbn; try discriminate. congruence.
Qed.

(** ** The CSV template *)

(** X10.  [importFromCSV] rejects the template of [generateCSVTemplate].  The
    metadata of its second and third example hold a comma, at which
    [parseCSV] cuts the field: the metadata of the second row is the text of
    an object that is not closed, and when [JSON.parse] rejects that text
    the whole import is a parse failure that imports no row. *)
Theorem csv_template_is_rejected (db : option (Driver Store)) (userId : nat)
    (store : Store) (thrown : Thrown) :
  JSON_parse ("{" +:+ quoted "author" +:+ ":" +:+ quoted "Me") = Throw thrown →
  match parseCSV generateCSVTemplate with
  | Normal rows => Some ((fun row : gmap string string => row !! "metadata") <$> rows)
  | Throw _ => None
  end
  = Some [Some ("{" +:+ quoted "category" +:+ ":" +:+ quoted "music" +:+ "}");
          Some ("{" +:+ quoted "author" +:+ ":" +:+ quoted "Me");
          Some ("{" +:+ quoted "genre" +:+ ":" +:+ quoted "gospel")]
  ∧ ∃ thrown',
      importFromCSV' db userId generateCSVTemplate store
      = ({| success := false; totalRows := 0; importedRows := 0; skippedRows := 0;
            errors :=
              [{| rowIndex := 0;
                  rowError := "CSV parsing failed: " +:+ error_message thrown' |}] |},
         store).
Proof.
  intros Hthrow. split; [vm_compute; reflexivity|].
  assert (Hmap : ∃ thrown', (rows ← parseCSV generateCSVTemplate;
                             csvToEntries JSON_parse rows) = Throw thrown').
  { vm_compute in Hthrow. vm_compute.
    repeat match goal with
           | |- context [match JSON_parse ?m with _ => _ end] =>
               let E := fresh "E" in destruct (JSON_parse m) eqn:E
           end; try congruence; eauto. }
  destruct Hmap as [thrown' Hmap]. exists thrown'.
  unfold importFromCSV. rewrite Hmap. reflexivity.
Qed.

(** ** Failures of [exportAsJSON] and of [importFromJSON] *)

Lemma export_record_throws entry thrown :
  export_record JSON_parse entry = Throw thrown
  ↔ ∃ m, stored_metadata entry = Some m ∧ is_empty m = false
         ∧ JSON_parse m = Throw thrown.
Proof.
  unfold export_record, falsy, or_string. split.
  - destruct (stored_metadata entry) as [m|]; [|done].
    destruct (is_empty m) eqn:Hm; [done|].
    destruct (JSON_parse m) as [v|t] eqn:Hparse; [done|].
    intros [= <-]. eauto.
  - intros (m & -> & -> & ->). reflexivity.
Qed.

Lemma mapC_throws {A B : Type} (f : A → Completion B) xs :
  (∃ t, mapC f xs = Throw t) ↔ ∃ x t, x ∈ xs ∧ f x = Throw t.
Proof.
  induction xs as [|x xs IH]; cbn [mapC].
  - split; [by intros [t ?] | by intros (x & t & ?%elem_of_nil & _)].
  - destruct (f x) as [y|t] eqn:Hx; cbn.
    + destruct (mapC f xs) as [ys|t] eqn:Hxs; cbn.
      * split; [by intros [t ?]|].
        intros (x' & t & [->|Hin]%elem_of_cons & Hx'); [congruence|].
        destruct (proj2 IH) as [t' ?]; [eauto | done].
      * split; [|eauto]. intros _.
        destruct (proj1 IH) as (x' & t' & Hin & Hx'); [eauto|].
        exists x', t'. split; [by right | done].
    + split; [|eauto]. intros _. exists x, t. split; [by left | done].
Qed.

(** X11.  [exportAsJSON] throws exactly when some row of the table, of whatever
    owner, has a metadata text that is not empty and that [JSON.parse]
    rejects; one such row makes the export fail as a whole. *)
Theorem exportAsJSON_throws_iff (db : Driver Store) (userId : nat)
    (store : Store) (rows : list StoredEntry) :
  db_select db store = Normal rows →
  (∃ thrown, exportAsJSON JSON_parse JSON_stringify (Some db) userId store
             = Throw thrown)
  ↔ (∃ row m thrown,
       row ∈ rows ∧ stored_metadata row = Some m ∧ is_empty m = false
       ∧ JSON_parse m = Throw thrown).
Proof.
  intros Hselect. unfold exportAsJSON. rewrite Hselect. cbn [mbind Completion_bind].
  transitivity (∃ t, mapC (export_record JSON_parse) rows = Throw t).
  - destruct rows as [|row rows]; [by split; intros [t ?]|].
    cbn [length Nat.eqb].
    destruct (mapC (export_record JSON_parse) (row :: rows)) as [data|t];
      cbn; split; intros [t' ?]; eauto; done.
  - rewrite mapC_throws. split.
    + intros (row & t & Hin & (m & ? & ? & ?)%export_record_throws). eauto 10.
    + intros (row & m & t & Hin & Hm & Hne & Hparse). exists row, t.
      split; [done|]. apply export_record_throws. eauto.
Qed.

(** X12.  The two format failures of [importFromJSON]: a text [JSON.parse]
    rejects, and a text that is JSON but no array.  Both give the result
    without rows and with one error at row 0, whose message carries both
    prefixes, of [importFromJSON] and of [parseJSON]; the database is not
    touched. *)
Theorem importFromJSON_format_failures (db : option (Driver Store)) (userId : nat)
    (jsonContent : string) (store : Store) :
  (∀ thrown,
     JSON_parse jsonContent = Throw thrown →
     importFromJSON' db userId jsonContent store
     = (Normal {| success := false; totalRows := 0; importedRows := 0;
                  skippedRows := 0;
                  errors :=
                    [{| rowIndex := 0;
                        rowError := "JSON parsing failed: Invalid JSON: "
                                    +:+ error_message thrown |}] |},
        store))
  ∧ (∀ v,
       JSON_parse jsonContent = Normal v →
       (∀ items, v ≠ JArray items) →
       importFromJSON' db userId jsonContent store
       = (Normal {| success := false; totalRows := 0; importedRows := 0;
                    skippedRows := 0;
                    errors :=
                      [{| rowIndex := 0;
                          rowError := "JSON parsing failed: Invalid JSON: JSON must be an array of entries" |}] |},
          store)).
Proof.
  unfold importFromJSON, parseJSON. split.
  - intros thrown ->. reflexivity.
  - intros v -> Hv. destruct v; try reflexivity. by destruct (Hv items).
Qed.

(** ** The rows the errors name *)

Lemma import_loop_indices (db : Driver Store) userId valid entries :
  ∀ i result store e,
    e ∈ errors (import_loop JSON_stringify db userId valid i entries (result, store)).1 →
    e ∈ errors result ∨ i ≤ rowIndex e < i + length entries.
Proof.
  induction entries as [|entry entries IH]; intros i result store e;
    cbn [import_loop length]; [by left|].
  unfold import_entry. destruct (negb (bool_decide (i ∈ valid))).
  - intros [He|He]%IH; [by left | right; lia].
  - destruct (db_insert db _ store) as [store' [thrown|]].
    + intros [He|He]%IH; [|right; lia]. cbn in He. unfold push in He.
      apply elem_of_app in He as [He|He]; [by left|].
      apply list_elem_of_singleton in He as ->. right. cbn. lia.
    + intros [He|He]%IH; [by left | right; lia].
Qed.

(** X15.  With a database, every error of the result of [importEntries] names a
    row of the batch: [rowIndex < totalRows], for the records of the
    validation and for those of the rejected inserts. *)
Theorem errors_name_rows_of_the_batch (db : Driver Store) (userId : nat)
    (entries : list ImportEntry) (store : Store) :
  ∀ e, e ∈ errors (importEntries' (Some db) userId entries store).1 →
       rowIndex e < totalRows (importEntries' (Some db) userId entries store).1.
Proof.
  destruct (importEntries_run db userId entries store) as (_ & -> & _).
  intros e. unfold importEntries.
  match goal with |- context [import_loop _ db userId ?v 0 entries (?r, store)] =>
    pose proof (import_loop_indices db userId v entries 0 r store e) as Hloop;
    destruct (import_loop JSON_stringify db userId v 0 entries (r, store))
      as [result store']
  end.
  cbn [fst errors] in *. intros [He|He]%Hloop; [|lia].
  apply list_elem_of_fmap in He as (ve & -> & Hve). cbn.
  by apply (proj1 (validateEntries_bounds_aux entries)).
Qed.

(** ** Blank lines *)

Lemma split_concat sep a b :
  split sep (a +:+ String sep b) = (split sep a ++ split sep b)%list.
Proof.
  induction a as [|c a IH].
  - change (split sep (String sep b) = ([""] ++ split sep b)%list). cbn.
    by rewrite Ascii.eqb_refl.
  - change (split sep (String c (a +:+ String sep b))
            = (split sep (String c a) ++ split sep b)%list).
    cbn [split]. rewrite IH. destruct (Ascii.eqb c sep); [reflexivity|].
    pose proof (split_not_nil sep a). by destruct (split sep a).
Qed.

Lemma lines_of_concat a b :
  lines_of (a +:+ NL +:+ b) = (lines_of a ++ lines_of b)%list.
Proof.
  unfold lines_of. change (NL +:+ b) with (String LF b).
  by rewrite split_concat, List.filter_app.
Qed.

Lemma parseCSV_lines c1 c2 : lines_of c1 = lines_of c2 → parseCSV c1 = parseCSV c2.
Proof. unfold parseCSV. by intros ->. Qed.

(** X16.  [parseCSV] reads a text through its lines that are not blank: lines
    that are blank, wherever they stand, and a line feed at the end change
    nothing. *)
Theorem parseCSV_ignores_blank_lines (a b blank : string) :
  lines_of blank = [] →
  parseCSV (a +:+ NL +:+ blank +:+ NL +:+ b) = parseCSV (a +:+ NL +:+ b)
  ∧ parseCSV (a +:+ NL +:+ blank) = parseCSV a
  ∧ parseCSV (a +:+ NL) = parseCSV a.
Proof.
  intros Hblank. split; [|split]; apply parseCSV_lines.
  - by rewrite !lines_of_concat, Hblank.
  - by rewrite lines_of_concat, Hblank, app_nil_r.
  - change (a +:+ NL) with (a +:+ NL +:+ ""). rewrite lines_of_concat.
    by rewrite app_nil_r.
Qed.

(** ** Entries of the declared type

    On an array whose items have the type [ImportEntry] that [parseJSON]
    declares, [validateEntries] and [importEntries] on values of any shape
    are the functions on the record [ImportEntry]: they throw nothing, and
    give the same records, the same result and the same inserts. *)

Lemma untyped_text_optional expression x :
  Untyped.text TypeError_message expression (optional x)
  = Normal (if falsy x then None else x).
Proof.
  destruct x as [s|]; [|reflexivity].
  unfold Untyped.text. cbn [optional truthy falsy]. by destruct (is_empty s).
Qed.

Lemma untyped_validate_entry_typed i entry errors :
  Untyped.validate_entry Number_toString TypeError_message i (entry_value entry) errors
  = Normal (validate_entry i entry errors).
Proof.
  destruct entry as [ty ti co u md].
  unfold Untyped.validate_entry, validate_entry, entry_value, Untyped.get.
  cbn [property String.eqb Ascii.eqb Bool.eqb default from_option id type title content
       mbind Completion_bind].
  rewrite !untyped_text_optional. cbn [mbind Completion_bind].
  assert (Hty : truthy (optional ty) = negb (falsy ty)) by (by destruct ty).
  rewrite Hty, negb_involutive.
  destruct ty as [ty|], ti as [ti|], co as [co|];
    cbn [optional falsy negb Untyped.includes_value Untyped.blank
         Untyped.too_long default from_option id mbind Completion_bind
         Untyped.ToString orb andb].
  all: repeat match goal with
       | |- context [is_empty ?s] =>
           lazymatch s with
           | trim _ => fail
           | _ => let E := fresh "E" in
                  destruct (is_empty s) eqn:E;
                  [ try rewrite (trim_empty_of_empty s E);
                    try rewrite (length_of_empty s E) | ]
           end
       end.
  all: cbn [negb orb andb mbind Completion_bind Untyped.blank Untyped.too_long].
  all: repeat match goal with
       | |- context [if ?b then _ else _] => destruct b
       end.
  all: reflexivity.
Qed.

Lemma untyped_validate_loop_typed entries :
  ∀ i errors,
    Untyped.validate_loop Number_toString TypeError_message i (entry_value <$> entries)
      errors
    = Normal (validate_loop i entries errors).
Proof.
  induction entries as [|entry entries IH]; intros i errors;
    cbn [fmap list_fmap Untyped.validate_loop validate_loop]; [reflexivity|].
  rewrite untyped_validate_entry_typed. cbn [mbind Completion_bind]. apply IH.
Qed.

Lemma untyped_insert_values_typed userId entry :
  Untyped.insert_values JSON_stringify TypeError_message userId (entry_value entry)
  = Normal (insert_values JSON_stringify userId entry).
Proof. by destruct entry as [ty ti co u [md|]]. Qed.

Lemma untyped_import_loop_typed (db : Driver Store) userId valid entries :
  ∀ i state,
    untyped_import_loop db userId valid i (entry_value <$> entries) state
    = import_loop JSON_stringify db userId valid i entries state.
Proof.
  induction entries as [|entry entries IH]; intros i [result store];
    cbn [fmap list_fmap Untyped.import_loop import_loop]; [reflexivity|].
  rewrite IH. f_equal. unfold Untyped.import_entry, import_entry.
  rewrite untyped_insert_values_typed. unfold Untyped.insert_failed.
  destruct (negb (bool_decide (i ∈ valid))); [reflexivity|].
  by destruct (db_insert db _ store) as [store' [thrown|]].
Qed.

Lemma untyped_importEntries_typed (db : option (Driver Store)) userId entries store :
  untyped_importEntries db userId (entry_value <$> entries) store
  = (Normal (importEntries' db userId entries store).1,
     (importEntries' db userId entries store).2).
Proof.
  unfold Untyped.importEntries, Untyped.validateEntries, importEntries, validateEntries.
  rewrite untyped_validate_loop_typed, length_fmap.
  destruct db as [db|]; [|reflexivity].
  rewrite untyped_import_loop_typed.
  by destruct (import_loop _ _ _ _ _ _ _) as [result store'].
Qed.

End Coverage.

(** * Properties of the subscription statistics *)

Section SubscriptionStatistics.

Local Open Scope nat_scope.

Variable Store : Type.

Lemma revenue_sum all :
  ∀ sum,
    foldl add_price sum all
    = sum + 29 * length (with_plan "monthly" all)
      + 299 * (length all - length (with_plan "monthly" all)).
Proof.
  unfold with_plan.
  induction all as [|p all IH]; intros sum; cbn [foldl List.filter length]; [lia|].
  rewrite IH. unfold add_price.
  pose proof (List.filter_length_le
                (fun p => String.eqb (purchase_planId p) "monthly") all).
  destruct (String.eqb (purchase_planId p) "monthly"); cbn [length]; lia.
Qed.

(** X13.  [totalRevenue] is 29 for each purchase with the monthly plan and 299
    for each other purchase, over all the purchases of the table: the
    canceled and the expired ones count too, and every plan that is not
    [monthly] counts as a lifetime plan. *)
Theorem revenue_counts_every_purchase
    (select : Store → Completion (list Purchase)) (now : nat → Z) (store : Store)
    (all : list Purchase) :
  select store = Normal all →
  totalRevenue (getSubscriptionStats (Some select) now store)
  = 29 * length (with_plan "monthly" all)
    + 299 * (length all - length (with_plan "monthly" all))
  ∧ totalSubscriptions (getSubscriptionStats (Some select) now store) = length all.
Proof.
  intros Hselect. unfold getSubscriptionStats. rewrite Hselect. cbn.
  by rewrite revenue_sum.
Qed.

Lemma filter_active_length now all :
  ∀ i, length (filter_active now i all) ≤ length all.
Proof.
  induction all as [|p all IH]; intros i; cbn [filter_active length]; [lia|].
  pose proof (IH (S i)). destruct (_ && _); cbn [length]; lia.
Qed.

Lemma plans_length xs :
  length (with_plan "monthly" xs) + length (with_plan "lifetime" xs) ≤ length xs
  ∧ (Forall (fun p => purchase_planId p = "monthly" ∨ purchase_planId p = "lifetime") xs →
     length (with_plan "monthly" xs) + length (with_plan "lifetime" xs) = length xs).
Proof.
  unfold with_plan. induction xs as [|p xs [IH1 IH2]]; cbn [List.filter length].
  - split; [lia | done].
  - split.
    + destruct (String.eqb_spec (purchase_planId p) "monthly") as [Hm|Hm];
        destruct (String.eqb_spec (purchase_planId p) "lifetime") as [Hl|Hl];
        cbn [length]; try lia. congruence.
    + intros [Hp Hxs]%Forall_cons. specialize (IH2 Hxs).
      destruct (String.eqb_spec (purchase_planId p) "monthly") as [Hm|Hm];
        destruct (String.eqb_spec (purchase_planId p) "lifetime") as [Hl|Hl];
        cbn [length]; try lia.
      * congruence.
      * by destruct Hp.
Qed.

(** X14.  The counts of [getSubscriptionStats], whatever the database does:
    the monthly and the lifetime subscriptions together are at most the
    active ones, which are at most all; the revenue lies between 29 and 299
    for each purchase.  When every active purchase has the plan [monthly] or
    [lifetime], the two counts add up to the active ones. *)
Theorem subscription_counts (db : option (Store → Completion (list Purchase)))
    (now : nat → Z) (store : Store) :
  monthlySubscriptions (getSubscriptionStats db now store)
  + lifetimeSubscriptions (getSubscriptionStats db now store)
  ≤ activeSubscriptions (getSubscriptionStats db now store)
  ∧ activeSubscriptions (getSubscriptionStats db now store)
    ≤ totalSubscriptions (getSubscriptionStats db now store)
  ∧ 29 * totalSubscriptions (getSubscriptionStats db now store)
    ≤ totalRevenue (getSubscriptionStats db now store)
  ∧ totalRevenue (getSubscriptionStats db now store)
    ≤ 299 * totalSubscriptions (getSubscriptionStats db now store)
  ∧ (∀ select all,
       db = Some select → select store = Normal all →
       Forall (fun p => purchase_planId p = "monthly"
                        ∨ purchase_planId p = "lifetime")
         (filter_active now 0 all) →
       monthlySubscriptions (getSubscriptionStats db now store)
       + lifetimeSubscriptions (getSubscriptionStats db now store)
       = activeSubscriptions (getSubscriptionStats db now store)).
Proof.
  unfold getSubscriptionStats. destruct db as [select|].
  - destruct (select store) as [all|t] eqn:Hselect.
    + cbn [totalSubscriptions activeSubscriptions monthlySubscriptions
           lifetimeSubscriptions totalRevenue].
      pose proof (plans_length (filter_active now 0 all)) as [Hplans Hexact].
      pose proof (filter_active_length now all 0).
      pose proof (List.filter_length_le
                    (fun p => String.eqb (purchase_planId p) "monthly") all).
      rewrite revenue_sum. unfold with_plan in *.
      split_and!; try lia.
      intros select' all' [= <-] Hall'. rewrite Hselect in Hall'.
      injection Hall' as <-. exact Hexact.
    + cbn. split_and!; lia.
  - cbn. split_and!; lia.
Qed.

End SubscriptionStatistics.

(** * The service on concrete inputs *)

Import Reference.

(** C1.  The export of user 1 from a database that holds a row of user 1
    and a row of user 2 serializes both rows: [exportAsCSV] and
    [exportAsJSON] read the whole table and make no use of [userId]. *)
Theorem export_serializes_rows_of_other_owners :
  exportAsCSV (Some list_db) 1 [site; secret]
  = Normal (join NL ["type,title,content,url,metadata";
                     join "," [quoted "website"; quoted "T"; quoted "C";
                               quoted ""; quoted ""];
                     join "," [quoted "book"; quoted "Other"; quoted "Secret";
                               quoted "http://x"; quoted "{}"]]
            +:+ NL)
  ∧ exportAsJSON JSON_parse JSON_stringify (Some list_db) 1 [site; secret]
    = Normal (JSON_stringify
                (JArray [exported site JUndefined; exported secret (JObject [])]) 2)
  ∧ exportAsCSV (Some list_db) 1 [site; secret]
    = exportAsCSV (Some list_db) 2 [site; secret].
Proof. repeat split; vm_compute; reflexivity. Qed.

(** C2, the claim refuted: the result of a parse failure (a header without
    data row) and the result for an empty batch without a database have
    [success = false] and [skippedRows = 0]. *)
Lemma success_false_with_none_skipped :
  importFromCSV JSON_parse JSON_stringify (Some list_db) 1 "type,title,content" []
  = ({| success := false; totalRows := 0; importedRows := 0; skippedRows := 0;
        errors :=
          [{| rowIndex := 0;
              rowError := "CSV parsing failed: CSV must have at least a header row and one data row" |}] |},
     [])
  ∧ importEntries JSON_stringify (Store := list StoredEntry) None 1 [] []
    = ({| success := false; totalRows := 0; importedRows := 0; skippedRows := 0;
          errors := [{| rowIndex := 0; rowError := "Database not initialized" |}] |},
       []).
Proof. split; vm_compute; reflexivity. Qed.

Lemma success_implies_none_skipped_witness :
  success (importEntries JSON_stringify (Some list_db) 1 [track] []).1 = true
  ∧ skippedRows (importEntries JSON_stringify (Some list_db) 1 [track] []).1 = 0.
Proof.
  split; [reflexivity|].
  apply (proj1 (proj1 (success_implies_none_skipped JSON_parse JSON_stringify
                         Number_toString TypeError_message
                         (list StoredEntry) (Some list_db) 1 []) [track])).
  reflexivity.
Defined.

Lemma row_accounting_witness :
  importFromJSON JSON_parse JSON_stringify Number_toString TypeError_message
    (Some list_db) 1 null_title []
  = (Normal null_title_result, [])
  ∧ totalRows null_title_result
    = importedRows null_title_result + skippedRows null_title_result.
Proof.
  split; [vm_compute; reflexivity|].
  apply (proj1 (proj2 (proj2 (row_accounting JSON_parse JSON_stringify
                                Number_toString TypeError_message (list StoredEntry)
                                (Some list_db) 1 [])))
           null_title _ []).
  vm_compute. reflexivity.
Defined.

(** [importFromJSON] on the array of a valid record and of a record that
    violates two rules: one row is stored, the other is skipped with its
    two records. *)
Example importFromJSON_two_records :
  importFromJSON JSON_parse JSON_stringify Number_toString TypeError_message
    (Some list_db) 1 two_records []
  = (Normal two_records_result, [track_row]).
Proof. vm_compute. reflexivity. Qed.

(** The promise of [importFromJSON] is rejected with a [TypeError] for an
    array that holds [null]: [validateEntries] reads [entry.type] on it, and
    the [catch] clause of [importFromJSON] does not see the rejection. *)
Example importFromJSON_null_item :
  importFromJSON JSON_parse JSON_stringify Number_toString TypeError_message
    (Some list_db) 1 "[null]" []
  = (Throw (ThrownError (TypeError_message "entry.type")), []).
Proof. vm_compute. reflexivity. Qed.

(** C4, the claim refuted: one stored entry without comma and double quote
    comes back from the round trip with its type, title, content and url
    between double quotes, and with an empty string as metadata. *)
Lemma csv_round_trip_changes_fields :
  round_trip_safe site = true
  ∧ roundTrip JSON_parse (Some list_db) 1 [site]
    = Normal [{| type := Some (quoted "website"); title := Some (quoted "T");
                 content := Some (quoted "C"); url := Some (quoted "");
                 metadata := Some (JString "") |}]
  ∧ String.eqb (quoted "website") (stored_type site) = false
  ∧ String.eqb (quoted "T") (stored_title site) = false
  ∧ String.eqb (quoted "C") (stored_content site) = false.
Proof. repeat split; vm_compute; reflexivity. Qed.

Lemma csv_round_trip_quotes_fields_witness :
  db_select list_db [site; secret] = Normal [site; secret]
  ∧ (0 < length [site; secret])%nat
  ∧ forallb round_trip_safe [site; secret] = true
  ∧ roundTrip JSON_parse (Some list_db) 1 [site; secret]
    = mapC (quoted_entry JSON_parse) [site; secret].
Proof.
  split; [reflexivity|]. split; [simpl; lia|]. split; [reflexivity|].
  apply (csv_round_trip_quotes_fields JSON_parse (list StoredEntry) list_db 1
           [site; secret] [site; secret]);
    [reflexivity | simpl; lia | reflexivity].
Defined.

Lemma validation_independence_witness :
  [track; bogus_untitled] !! 1%nat = Some bogus_untitled
  ∧ List.filter (fun r => violates r bogus_untitled) rules
    = [TypeInvalid; TitleMissing]
  ∧ errors_at 1 (validateEntries [track; bogus_untitled])
    = [{| index := 1; error := rule_error TypeInvalid bogus_untitled |};
       {| index := 1; error := rule_error TitleMissing bogus_untitled |}].
Proof.
  split; [reflexivity|]. split; [reflexivity|].
  apply (proj2 (proj2 (validation_independence [track; bogus_untitled]))
           1%nat bogus_untitled TypeInvalid TitleMissing);
    reflexivity.
Defined.

Lemma importFromCSV_too_few_rows_witness :
  length (lines_of "type,title,content") < 2
  ∧ importFromCSV JSON_parse JSON_stringify (Some list_db) 1 "type,title,content" []
    = ({| success := false; totalRows := 0; importedRows := 0; skippedRows := 0;
          errors :=
            [{| rowIndex := 0;
                rowError := "CSV parsing failed: CSV must have at least a header row and one data row" |}] |},
       []).
Proof.
  split; [vm_compute; lia|].
  apply (importFromCSV_too_few_rows JSON_parse JSON_stringify (list StoredEntry)
           (Some list_db) 1 "type,title,content" []).
  vm_compute. lia.
Defined.

(** C8, the claim refuted: the record of a stored entry without metadata
    has [undefined] as its metadata, not an empty object, and its url is
    [null]; the text of the export has no metadata member for it. *)
Lemma export_record_without_metadata :
  export_record JSON_parse site
  = Normal (JObject [("type", JString "website"); ("title", JString "T");
                     ("content", JString "C"); ("url", JNull);
                     ("metadata", JUndefined)])
  ∧ exportAsJSON JSON_parse JSON_stringify (Some list_db) 1 [site]
    = Normal (join NL ["[";
                       "  {";
                       "    " +:+ quoted "type" +:+ ": " +:+ quoted "website" +:+ ",";
                       "    " +:+ quoted "title" +:+ ": " +:+ quoted "T" +:+ ",";
                       "    " +:+ quoted "content" +:+ ": " +:+ quoted "C" +:+ ",";
                       "    " +:+ quoted "url" +:+ ": null";
                       "  }";
                       "]"]).
Proof. split; vm_compute; reflexivity. Qed.

Lemma export_record_metadata_witness :
  (falsy (stored_metadata site) = true
   ∧ export_record JSON_parse site = Normal (exported site JUndefined))
  ∧ (stored_metadata secret = Some "{}" ∧ is_empty "{}" = false
     ∧ JSON_parse "{}" = Normal (JObject [])
     ∧ export_record JSON_parse secret = Normal (exported secret (JObject []))).
Proof.
  split.
  - split; [reflexivity|].
    apply (proj1 (export_record_metadata JSON_parse site)). reflexivity.
  - split; [reflexivity|]. split; [reflexivity|]. split; [reflexivity|].
    apply (proj1 (proj2 (export_record_metadata JSON_parse secret)) "{}" (JObject []));
      reflexivity.
Defined.

Lemma metadata_exception_escapes_mapping_witness :
  parseCSV bad_metadata_csv = Normal bad_metadata_rows
  ∧ bad_metadata_rows !! 1%nat = Some bad_metadata_row
  ∧ bad_metadata_row !! "metadata" = Some "not json"
  ∧ is_empty "not json" = false
  ∧ JSON_parse "not json" = Throw (ThrownError "Unexpected token")
  ∧ csvToEntry JSON_parse bad_metadata_row = Throw (ThrownError "Unexpected token")
  ∧ importFromCSV JSON_parse JSON_stringify (Some list_db) 1 bad_metadata_csv []
    = ({| success := false; totalRows := 0; importedRows := 0; skippedRows := 0;
          errors :=
            [{| rowIndex := 0;
                rowError := "CSV parsing failed: Unexpected token" |}] |},
       []).
Proof.
  split; [vm_compute; reflexivity|]. split; [reflexivity|].
  split; [vm_compute; reflexivity|]. split; [reflexivity|].
  split; [vm_compute; reflexivity|]. split; [|vm_compute; reflexivity].
  apply (proj1 (metadata_exception_escapes_mapping JSON_parse JSON_stringify
                  (list StoredEntry) (Some list_db) 1 [] bad_metadata_rows 1%nat
                  bad_metadata_row "not json" (ThrownError "Unexpected token")
                  eq_refl ltac:(vm_compute; reflexivity) eq_refl
                  ltac:(vm_compute; reflexivity))).
Defined.

Lemma empty_batch_succeeds_through_JSON_only_witness :
  JSON_parse "[]" = Normal (JArray [])
  ∧ importFromJSON JSON_parse JSON_stringify Number_toString TypeError_message
      (Some list_db) 1 "[]" []
    = (Normal {| success := true; totalRows := 0; importedRows := 0;
                 skippedRows := 0; errors := [] |}, [])
  ∧ (length (lines_of "type,title,content") ≤ 1)%nat
  ∧ importFromCSV JSON_parse JSON_stringify (Some list_db) 1 "type,title,content" []
    = ({| success := false; totalRows := 0; importedRows := 0; skippedRows := 0;
          errors :=
            [{| rowIndex := 0;
                rowError := "CSV parsing failed: CSV must have at least a header row and one data row" |}] |},
       []).
Proof.
  destruct (empty_batch_succeeds_through_JSON_only JSON_parse JSON_stringify
              Number_toString TypeError_message
              (list StoredEntry) list_db 1 [] ltac:(vm_compute; reflexivity))
    as [Hjson Hcsv].
  split; [vm_compute; reflexivity|]. split; [exact Hjson|].
  split; [vm_compute; lia|]. apply Hcsv. vm_compute. lia.
Defined.

Lemma export_of_nothing_witness :
  db_select list_db [] = Normal []
  ∧ exportAsCSV (Some list_db) 1 [] = Normal ""
  ∧ exportAsJSON JSON_parse JSON_stringify (Some list_db) 1 [] = Normal "[]".
Proof.
  split; [reflexivity|].
  apply (proj2 (export_of_nothing JSON_parse JSON_stringify (list StoredEntry) 1 [])
           list_db).
  reflexivity.
Defined.

(** Scenario D of the specification: a header and one data row without
    quoting import as one row. *)
Theorem scenario_D_imports_one_row :
  importFromCSV JSON_parse JSON_stringify (Some list_db) 1
    (join NL ["type,title,content"; "music,Track 1,My song"]) []
  = ({| success := true; totalRows := 1; importedRows := 1; skippedRows := 0;
        errors := [] |},
     [track_row]).
Proof. vm_compute. reflexivity. Qed.

(** * Witnesses of the further properties *)

Import Samples.

Lemma parseCSV_rows_witness :
  parseCSV proto_csv = Normal proto_rows
  ∧ (length proto_rows + 1 = length (lines_of proto_csv))%nat.
Proof.
  split; [vm_compute; reflexivity|].
  apply (proj1 (parseCSV_rows proto_csv proto_rows ltac:(vm_compute; reflexivity))).
Defined.

Lemma validateEntries_bounds_witness :
  {| index := 1; error := "Missing or empty title" |}
    ∈ validateEntries [track; bogus_untitled]
  ∧ (index {| index := 1; error := "Missing or empty title" |}
     < length [track; bogus_untitled])%nat.
Proof.
  assert (Hin : {| index := 1; error := "Missing or empty title" |}
                  ∈ validateEntries [track; bogus_untitled]).
  { vm_compute. right. left. }
  split; [exact Hin|].
  apply (proj1 (validateEntries_bounds [track; bogus_untitled]) _ Hin).
Defined.

Lemma valid_indices_are_valid_entries_witness :
  [track; bogus_untitled] !! 0%nat = Some track
  ∧ valid_entry track = true
  ∧ 0%nat ∈ validIndices (validateEntries [track; bogus_untitled])
              (length [track; bogus_untitled]).
Proof.
  split; [reflexivity|]. split; [reflexivity|].
  apply (proj1 (valid_indices_are_valid_entries [track; bogus_untitled])
           0%nat track eq_refl).
  reflexivity.
Defined.

Lemma valid_batch_imports_fully_witness :
  forallb valid_entry [track; first_row_entry] = true
  ∧ (∀ values store, (db_insert append_db values store).2 = None)
  ∧ importEntries JSON_stringify (Some append_db) 1 [track; first_row_entry] []
    = ({| success := true; totalRows := 2; importedRows := 2; skippedRows := 0;
          errors := [] |},
       foldl (fun store entry =>
                (db_insert append_db (insert_values JSON_stringify 1 entry) store).1)
         [] [track; first_row_entry]).
Proof.
  split; [reflexivity|]. split; [intros; reflexivity|].
  apply (valid_batch_imports_fully JSON_stringify (list StoredEntry) append_db 1
           [track; first_row_entry] []);
    [reflexivity | intros; reflexivity].
Defined.

Lemma success_iff_no_errors_witness :
  importFromJSON JSON_parse JSON_stringify Number_toString TypeError_message
    (Some list_db) 1 site_record []
  = (Normal site_result, [site])
  ∧ (success site_result = true ↔ errors site_result = []).
Proof.
  split; [vm_compute; reflexivity|].
  apply (proj1 (proj2 (proj2 (success_iff_no_errors JSON_parse JSON_stringify
                                Number_toString TypeError_message
                                (list StoredEntry) (Some list_db) 1 [])))
           site_record _ [site]).
  vm_compute. reflexivity.
Defined.

Lemma csv_entries_have_a_type_witness :
  csvToEntries JSON_parse [first_row] = Normal [first_row_entry]
  ∧ length [first_row_entry] = length [first_row].
Proof.
  split; [vm_compute; reflexivity|].
  apply (proj1 (csv_entries_have_a_type JSON_parse [first_row]
                  [first_row_entry] ltac:(vm_compute; reflexivity))).
Defined.

Lemma csv_template_is_rejected_witness :
  JSON_parse ("{" +:+ quoted "author" +:+ ":" +:+ quoted "Me")
  = Throw (ThrownError "Unexpected token")
  ∧ importFromCSV JSON_parse JSON_stringify (Some list_db) 1 generateCSVTemplate []
    = ({| success := false; totalRows := 0; importedRows := 0; skippedRows := 0;
          errors :=
            [{| rowIndex := 0; rowError := "CSV parsing failed: Unexpected token" |}] |},
       []).
Proof.
  split; [vm_compute; reflexivity|].
  destruct (proj2 (csv_template_is_rejected JSON_parse JSON_stringify
                     (list StoredEntry) (Some list_db) 1 []
                     (ThrownError "Unexpected token")
                     ltac:(vm_compute; reflexivity))) as [thrown' _].
  vm_compute. reflexivity.
Defined.

Lemma exportAsJSON_throws_iff_witness :
  db_select list_db [site; broken] = Normal [site; broken]
  ∧ ∃ thrown,
      exportAsJSON JSON_parse JSON_stringify (Some list_db) 1 [site; broken]
      = Throw thrown.
Proof.
  split; [reflexivity|].
  apply (proj2 (exportAsJSON_throws_iff JSON_parse JSON_stringify (list StoredEntry)
                  list_db 1 [site; broken] [site; broken] eq_refl)).
  exists broken, "not json", (ThrownError "Unexpected token").
  split; [right; left|]. split; [reflexivity|]. split; [reflexivity|].
  vm_compute. reflexivity.
Defined.

Lemma importFromJSON_format_failures_witness :
  JSON_parse "{}" = Normal (JObject [])
  ∧ (∀ items, JObject [] ≠ JArray items)
  ∧ importFromJSON JSON_parse JSON_stringify Number_toString TypeError_message
      (Some list_db) 1 "{}" []
    = (Normal {| success := false; totalRows := 0; importedRows := 0;
                 skippedRows := 0;
                 errors :=
                   [{| rowIndex := 0;
                       rowError := "JSON parsing failed: Invalid JSON: JSON must be an array of entries" |}] |},
       []).
Proof.
  split; [vm_compute; reflexivity|]. split; [discriminate|].
  apply (proj2 (importFromJSON_format_failures JSON_parse JSON_stringify
                  Number_toString TypeError_message
                  (list StoredEntry) (Some list_db) 1 "{}" []) (JObject []));
    [vm_compute; reflexivity | discriminate].
Defined.

Lemma revenue_counts_every_purchase_witness :
  (fun store : list Purchase => Normal store) purchases = Normal purchases
  ∧ totalRevenue (getSubscriptionStats (Some (fun store => Normal store))
                    at_1000 purchases)
    = (29 * 2 + 299 * (4 - 2))%nat.
Proof.
  split; [reflexivity|].
  apply (proj1 (revenue_counts_every_purchase (list Purchase)
                  (fun store => Normal store) at_1000 purchases purchases eq_refl)).
Defined.

Lemma subscription_counts_witness :
  Forall (fun p => purchase_planId p = "monthly" ∨ purchase_planId p = "lifetime")
    (filter_active at_1000 0 purchases)
  ∧ (monthlySubscriptions (getSubscriptionStats (Some (fun store => Normal store))
                             at_1000 purchases)
     + lifetimeSubscriptions (getSubscriptionStats (Some (fun store => Normal store))
                                at_1000 purchases)
     = activeSubscriptions (getSubscriptionStats (Some (fun store => Normal store))
                              at_1000 purchases))%nat.
Proof.
  assert (Hplans : Forall (fun p => purchase_planId p = "monthly"
                                    ∨ purchase_planId p = "lifetime")
                     (filter_active at_1000 0 purchases)).
  { vm_compute.
    repeat first [ apply Forall_nil_2
                 | apply Forall_cons_2; [(by left) || (by right)|] ]. }
  split; [exact Hplans|].
  apply (proj2 (proj2 (proj2 (proj2
           (subscription_counts (list Purchase) (Some (fun store => Normal store))
              at_1000 purchases))))
           (fun store => Normal store) purchases eq_refl eq_refl Hplans).
Defined.

Lemma errors_name_rows_of_the_batch_witness :
  {| rowIndex := 1; rowError := "Missing or empty title" |}
    ∈ errors (importEntries JSON_stringify (Some list_db) 1
                [track; bogus_untitled] []).1
  ∧ (rowIndex {| rowIndex := 1; rowError := "Missing or empty title" |}
     < totalRows (importEntries JSON_stringify (Some list_db) 1
                    [track; bogus_untitled] []).1)%nat.
Proof.
  assert (Hin : {| rowIndex := 1; rowError := "Missing or empty title" |}
                  ∈ errors (importEntries JSON_stringify (Some list_db) 1
                              [track; bogus_untitled] []).1).
  { vm_compute. right. left. }
  split; [exact Hin|].
  apply (errors_name_rows_of_the_batch JSON_stringify (list StoredEntry) list_db 1
           [track; bogus_untitled] [] _ Hin).
Defined.

Lemma parseCSV_ignores_blank_lines_witness :
  lines_of "   " = []
  ∧ parseCSV ("type,title" +:+ NL +:+ "   " +:+ NL +:+ "music,T")
    = parseCSV ("type,title" +:+ NL +:+ "music,T").
Proof.
  split; [reflexivity|].
  apply (proj1 (parseCSV_ignores_blank_lines "type,title" "music,T" "   " eq_refl)).
Defined.
